(** * neglnn: the Layer abstraction and its optimizer binding

    A shallow embedding of [neglnn/layers/layer.py].

    Python objects that the layer only passes around (arrays, optimizers,
    the shared state, initializers) are references into the interpreter's
    heap.  The heap itself, the optimizer methods, the optimizer provider
    and the methods a concrete layer overrides are collaborators living
    outside [layer.py]; they are taken as parameters acting on an abstract
    heap.  Every call the layer makes on a collaborator is logged, with its
    outcome, in a trace, so that the order of the calls can be stated.

    Exceptions do not roll the heap back: a computation returns its outcome
    together with the world as the exception left it. *)

From Stdlib Require Import String List Bool Arith ZArith Lia.
Import ListNotations.

Set Implicit Arguments.

(** ** Values *)

(** [neglnn.utils.types.Shape]: a tuple of integers. *)
Definition Shape := list Z.

(** [neglnn.utils.types.Array]: a reference to a numpy buffer, together
    with the [shape] attribute that [on_optimizer] reads. *)
Record Array := { buffer : nat; shape : Shape }.

(** References to an optimizer object, to the shared training state and to
    an initializer. *)
Definition Optimizer := nat.
Definition State := nat.
Definition Initializer := nat.

(** Modelled from the spec: [neglnn.optimizers.optimizer.Update] is not part
    of the sources at hand; the spec describes what [record] receives as a
    (parameter reference, gradient) pair, built positionally by
    [Update(parameter, gradient)]. *)
Record Update := { parameter : Array; gradient : Array }.

(** [@dataclass class BackwardState]. *)
Record BackwardState := {
  input_gradient : Array;
  parameter_gradients : list Array
}.

(** A keyword argument that the caller may leave out. *)
Definition default (A : Type) (d : A) (arg : option A) : A :=
  match arg with
  | Some a => a
  | None => d
  end.

(** The generated [BackwardState.__init__]: [parameter_gradients] falls back
    on [field(default_factory=tuple)], that is on [tuple()]. *)
Definition BackwardState__init__
    (input_gradient : Array) (parameter_gradients : option (list Array))
    : BackwardState :=
  {| input_gradient := input_gradient;
     parameter_gradients := default (@nil Array) parameter_gradients |}.

(** ** Exceptions and outcomes *)

Inductive exn :=
| NotImplementedError
| AttributeError (attribute : string)
| OtherError (message : string).

Inductive result (A : Type) :=
| Ok (a : A)
| Raise (e : exn).

Arguments Ok {A} a.
Arguments Raise {A} e.

(** ** The calls a layer makes, with their outcome *)

Inductive event :=
| EvParameters (r : result (list Array))
| EvProvider (r : result Optimizer)
| EvOnState (o : Optimizer) (s : State) (r : result unit)
| EvOnTargetShape (o : Optimizer) (sh : Shape) (r : result unit)
| EvRecord (o : Optimizer) (u : Update) (r : result unit)
| EvShouldOptimize (o : Optimizer) (r : result bool)
| EvOptimize (o : Optimizer) (r : result unit).

Definition raised (A : Type) (r : result A) : option exn :=
  match r with
  | Ok _ => None
  | Raise e => Some e
  end.

(** The exception a logged call ended with, if any. *)
Definition event_exn (ev : event) : option exn :=
  match ev with
  | EvParameters r => raised r
  | EvProvider r => raised r
  | EvOnState _ _ r => raised r
  | EvOnTargetShape _ _ r => raised r
  | EvRecord _ _ r => raised r
  | EvShouldOptimize _ r => raised r
  | EvOptimize _ r => raised r
  end.

(** ** The layer object *)

(** The attributes of a [Layer] instance.  [input_shape] and [output_shape]
    are [Optional[Shape]], so [None] is Python's [None].  For [state] and
    [optimizers], [None] stands for an attribute the instance does not have
    yet: reading it raises [AttributeError]. *)
Record Layer := {
  input_shape : option Shape;
  output_shape : option Shape;
  trainable : bool;
  state : option State;
  optimizers : option (list Optimizer)
}.

(** Modelled from the spec: the constructors of the base classes [Stateful]
    and [Identifiable] are not part of the sources at hand.  By the spec the
    shared state is attached after construction (by [on_state]), and the
    identity is not an attribute that [layer.py] reads; so what
    [super().__init__()] leaves behind, as far as the layer is concerned, is
    a [state] attribute that is not set yet. *)
Definition super__init__ : option State := None.

(** [Layer.__init__]: [super().__init__()], then the three assignments.
    Nothing here creates [optimizers]. *)
Definition Layer__init__
    (input_shape output_shape : option (option Shape))
    (trainable : option bool) : Layer :=
  {| input_shape := default None input_shape;
     output_shape := default None output_shape;
     trainable := default false trainable;
     state := super__init__;
     optimizers := None |}.

(** [zip] over three sequences stops with the shortest. *)
Fixpoint zip3 (A B C : Type) (xs : list A) (ys : list B) (zs : list C)
    : list (A * B * C) :=
  match xs, ys, zs with
  | x :: xs', y :: ys', z :: zs' => (x, y, z) :: zip3 xs' ys' zs'
  | _, _, _ => []
  end.

Section LayerCode.

(** The interpreter's heap: every object but the layer's own attributes. *)
Variable Heap : Type.

(** A call into code outside [layer.py]: it may change the heap, and either
    returns or raises. *)
Definition ext (A : Type) := Heap -> result A * Heap.

(** The [Optimizer] interface, dispatched on the receiving object. *)
Record OptimizerMethods := {
  opt_on_state : Optimizer -> State -> ext unit;
  opt_on_target_shape : Optimizer -> Shape -> ext unit;
  opt_record : Optimizer -> Update -> ext unit;
  opt_should_optimize : Optimizer -> ext bool;
  opt_optimize : Optimizer -> ext unit
}.

(** The four methods the base class leaves to concrete layers. *)
Definition on_initializer (initializer : Initializer) : ext unit :=
  fun h => (Raise NotImplementedError, h).

Definition forward (input : Array) : ext Array :=
  fun h => (Raise NotImplementedError, h).

Definition backward (output_gradient : Array) : ext BackwardState :=
  fun h => (Raise NotImplementedError, h).

Definition parameters : ext (list Array) :=
  fun h => (Raise NotImplementedError, h).

(** A concrete layer class: what it overrides.  [None] means that the method
    is inherited from [Layer]. *)
Record Subclass := {
  override_on_initializer : option (Initializer -> ext unit);
  override_forward : option (Array -> ext Array);
  override_backward : option (Array -> ext BackwardState);
  override_parameters : option (ext (list Array))
}.

(** The class [Layer] itself. *)
Definition LayerBase : Subclass :=
  {| override_on_initializer := None;
     override_forward := None;
     override_backward := None;
     override_parameters := None |}.

(** Method resolution. *)
Definition on_initializer_of (C : Subclass) : Initializer -> ext unit :=
  default on_initializer (override_on_initializer C).

Definition forward_of (C : Subclass) : Array -> ext Array :=
  default forward (override_forward C).

Definition backward_of (C : Subclass) : Array -> ext BackwardState :=
  default backward (override_backward C).

Definition parameters_of (C : Subclass) : ext (list Array) :=
  default parameters (override_parameters C).

(** ** The monad of layer methods *)

Record World := {
  self : Layer;
  heap : Heap;
  trace : list event
}.

Definition M (A : Type) := World -> result A * World.

Definition ret (A : Type) (a : A) : M A := fun w => (Ok a, w).

Definition raise (A : Type) (e : exn) : M A := fun w => (Raise e, w).

Definition bind (A B : Type) (m : M A) (k : A -> M B) : M B :=
  fun w =>
    match m w with
    | (Ok a, w') => k a w'
    | (Raise e, w') => (Raise e, w')
    end.

Notation "x <- m ;; k" := (bind m (fun x => k))
  (at level 61, m at next level, right associativity).
Notation "m ;; k" := (bind m (fun _ => k))
  (at level 61, right associativity).

(** Calling a collaborator: run it on the heap and log the outcome. *)
Definition call (A : Type) (log : result A -> event) (f : ext A) : M A :=
  fun w =>
    let (r, h) := f (heap w) in
    (r, {| self := self w; heap := h; trace := trace w ++ [log r] |}).

(** Reading and writing the attributes of [self]. *)
Definition get_state : M State :=
  fun w =>
    match state (self w) with
    | Some s => (Ok s, w)
    | None => (Raise (AttributeError "state"%string), w)
    end.

Definition get_optimizers : M (list Optimizer) :=
  fun w =>
    match optimizers (self w) with
    | Some os => (Ok os, w)
    | None => (Raise (AttributeError "optimizers"%string), w)
    end.

Definition with_state (s : State) (l : Layer) : Layer :=
  {| input_shape := input_shape l;
     output_shape := output_shape l;
     trainable := trainable l;
     state := Some s;
     optimizers := optimizers l |}.

Definition with_optimizers (os : list Optimizer) (l : Layer) : Layer :=
  {| input_shape := input_shape l;
     output_shape := output_shape l;
     trainable := trainable l;
     state := state l;
     optimizers := Some os |}.

Definition update_self (f : Layer -> Layer) : M unit :=
  fun w => (Ok tt, {| self := f (self w); heap := heap w; trace := trace w |}).

(** A [for] loop over an already evaluated sequence. *)
Fixpoint for_each (A : Type) (xs : list A) (body : A -> M unit) : M unit :=
  match xs with
  | [] => ret tt
  | x :: xs' => body x ;; for_each xs' body
  end.

(** Modelled from the spec: [Stateful.on_state] is not part of the sources
    at hand; it attaches the shared training state reference. *)
Definition on_state (s : State) : M unit := update_self (with_state s).

Variable O : OptimizerMethods.

(** The body of the loop of [Layer.on_optimizer]. *)
Definition attach (provider : ext Optimizer) (parameter : Array) : M unit :=
  optimizer <- call EvProvider provider ;;
  s <- get_state ;;
  call (EvOnState optimizer s) (opt_on_state O optimizer s) ;;
  call (EvOnTargetShape optimizer (shape parameter))
       (opt_on_target_shape O optimizer (shape parameter)) ;;
  os <- get_optimizers ;;
  update_self (with_optimizers (os ++ [optimizer])).

(** [Layer.on_optimizer]. *)
Definition on_optimizer (C : Subclass) (provider : ext Optimizer) : M unit :=
  update_self (with_optimizers []) ;;
  ps <- call EvParameters (parameters_of C) ;;
  for_each ps (attach provider).

(** The body of the loop of [Layer.optimize]. *)
Definition dispatch (triple : Optimizer * Array * Array) : M unit :=
  let '(optimizer, parameter, gradient) := triple in
  let update := {| parameter := parameter; gradient := gradient |} in
  call (EvRecord optimizer update) (opt_record O optimizer update) ;;
  ready <- call (EvShouldOptimize optimizer) (opt_should_optimize O optimizer) ;;
  if ready : bool
  then call (EvOptimize optimizer) (opt_optimize O optimizer)
  else ret tt.

(** [Layer.optimize]: the arguments of [zip] are evaluated left to right,
    then the loop runs over the zipped triples. *)
Definition optimize (C : Subclass) (gradients : list Array) : M unit :=
  os <- get_optimizers ;;
  ps <- call EvParameters (parameters_of C) ;;
  for_each (zip3 os ps gradients) dispatch.

End LayerCode.

Arguments LayerBase : clear implicits.
Arguments parameters : clear implicits.

(** ** Reading a trace *)

(** The optimizers handed out by the provider calls of a trace, in order. *)
Fixpoint provided (t : list event) : list Optimizer :=
  match t with
  | [] => []
  | EvProvider (Ok o) :: t' => o :: provided t'
  | _ :: t' => provided t'
  end.

(** The number of calls to the provider in a trace, whatever their outcome. *)
Fixpoint provider_calls (t : list event) : nat :=
  match t with
  | [] => 0
  | EvProvider _ :: t' => S (provider_calls t')
  | _ :: t' => provider_calls t'
  end.

(** The (optimizer, shape) pairs of the completed [on_target_shape] calls. *)
Fixpoint bound (t : list event) : list (Optimizer * Shape) :=
  match t with
  | [] => []
  | EvOnTargetShape o sh (Ok _) :: t' => (o, sh) :: bound t'
  | _ :: t' => bound t'
  end.

(** The number of calls to [record] in a trace. *)
Fixpoint records (t : list event) : nat :=
  match t with
  | [] => 0
  | EvRecord _ _ _ :: t' => S (records t')
  | _ :: t' => records t'
  end.

(** The calls made for one parameter by a run of [on_optimizer] that
    completes: the provider hands out [o], which receives the shared state
    and then the shape of the parameter. *)
Definition attach_events (s : State) (po : Array * Optimizer) : list event :=
  [ EvProvider (Ok (snd po));
    EvOnState (snd po) s (Ok tt);
    EvOnTargetShape (snd po) (shape (fst po)) (Ok tt) ].

(** The calls made for a parameter [p] when [on_optimizer] is interrupted
    there by the exception [e]: the provider raised, or the optimizer it
    returned raised from [on_state], or from [on_target_shape]. *)
Definition interrupted (s : State) (e : exn) (p : Array) (evs : list event)
    : Prop :=
  evs = [EvProvider (Raise e)] \/
  (exists o, evs = [EvProvider (Ok o); EvOnState o s (Raise e)]) \/
  (exists o, evs = [EvProvider (Ok o); EvOnState o s (Ok tt);
                    EvOnTargetShape o (shape p) (Raise e)]).

(** An event of [optimize] that belongs to the triple at index [i] of the
    optimizer list, the parameters and the gradients. *)
Definition at_index (os : list Optimizer) (ps gs : list Array)
    (i : nat) (ev : event) : Prop :=
  match ev with
  | EvRecord o u _ =>
      nth_error os i = Some o /\
      nth_error ps i = Some (parameter u) /\
      nth_error gs i = Some (gradient u)
  | EvShouldOptimize o _ => nth_error os i = Some o
  | EvOptimize o _ => nth_error os i = Some o
  | _ => False
  end.

Section Contracts.

Variable Heap : Type.
Variable O : OptimizerMethods Heap.

(** The update dispatch in the words of the spec: the triples are taken in
    order; each one is recorded on its optimizer, which is then asked
    whether it is ready, and applies the update exactly when it is.
    [dispatched ts h evs h'] relates the heap [h] before the first triple of
    [ts] to the heap [h'] after the last one; [evs] are the calls made. *)
Inductive dispatched
    : list (Optimizer * Array * Array) -> Heap -> list event -> Heap -> Prop :=
| dispatched_done : forall h,
    dispatched [] h [] h
| dispatched_applied : forall o p g ts h h1 h2 h3 evs h',
    let u := {| parameter := p; gradient := g |} in
    opt_record O o u h = (Ok tt, h1) ->
    opt_should_optimize O o h1 = (Ok true, h2) ->
    opt_optimize O o h2 = (Ok tt, h3) ->
    dispatched ts h3 evs h' ->
    dispatched ((o, p, g) :: ts) h
      (EvRecord o u (Ok tt) :: EvShouldOptimize o (Ok true)
         :: EvOptimize o (Ok tt) :: evs) h'
| dispatched_deferred : forall o p g ts h h1 h2 evs h',
    let u := {| parameter := p; gradient := g |} in
    opt_record O o u h = (Ok tt, h1) ->
    opt_should_optimize O o h1 = (Ok false, h2) ->
    dispatched ts h2 evs h' ->
    dispatched ((o, p, g) :: ts) h
      (EvRecord o u (Ok tt) :: EvShouldOptimize o (Ok false) :: evs) h'.

(** The life of a layer object up to, and excluding, its first
    [on_optimizer]: it is constructed, and then any of the other methods of
    [layer.py] run on it, while the concrete layer's own methods act on the
    heap. *)
Inductive before_on_optimizer : World Heap -> Prop :=
| boo_constructed : forall input_shape output_shape trainable h,
    before_on_optimizer
      {| self := Layer__init__ input_shape output_shape trainable;
         heap := h; trace := [] |}
| boo_on_state : forall s w,
    before_on_optimizer w ->
    before_on_optimizer (snd (on_state s w))
| boo_optimize : forall C gs w,
    before_on_optimizer w ->
    before_on_optimizer (snd (optimize O C gs w))
| boo_parameters : forall C w,
    before_on_optimizer w ->
    before_on_optimizer (snd (call EvParameters (parameters_of C) w))
| boo_heap : forall w h,
    before_on_optimizer w ->
    before_on_optimizer {| self := self w; heap := h; trace := trace w |}.

End Contracts.

Definition is_some (A : Type) (x : option A) : bool :=
  match x with
  | Some _ => true
  | None => false
  end.

(** The four methods of the base abstraction. *)
Inductive method := OnInitializer | Forward | Backward | Parameters.

Definition overridden (Heap : Type) (C : Subclass Heap) (m : method) : bool :=
  match m with
  | OnInitializer => is_some (override_on_initializer C)
  | Forward => is_some (override_forward C)
  | Backward => is_some (override_backward C)
  | Parameters => is_some (override_parameters C)
  end.

(** Invoking [m] on an instance of [C] raises [NotImplementedError], whatever
    the argument and the heap, and changes nothing. *)
Definition not_implemented (Heap : Type) (C : Subclass Heap) (m : method)
    : Prop :=
  match m with
  | OnInitializer => forall initializer h,
      on_initializer_of C initializer h = (Raise NotImplementedError, h)
  | Forward => forall input h,
      forward_of C input h = (Raise NotImplementedError, h)
  | Backward => forall output_gradient h,
      backward_of C output_gradient h = (Raise NotImplementedError, h)
  | Parameters => forall h,
      parameters_of C h = (Raise NotImplementedError, h)
  end.

(** ** A concrete collaborator, to run the code on

    Not part of [layer.py]: an optimizer that accumulates updates and applies
    them two at a time, a provider that hands out a new one at each call, and
    a dense layer with a weight matrix and a bias vector. *)
Module Demo.

Record store := {
  next : Optimizer;
  attached : list (Optimizer * State);
  targets : list (Optimizer * Shape);
  pending : list (Optimizer * Update);
  applied : list (Optimizer * Update)
}.

Definition empty : store :=
  {| next := 0; attached := []; targets := []; pending := []; applied := [] |}.

Definition provider : ext store Optimizer :=
  fun h =>
    (Ok (next h),
     {| next := S (next h); attached := attached h; targets := targets h;
        pending := pending h; applied := applied h |}).

Definition mine (o : Optimizer) (ou : Optimizer * Update) : bool :=
  Nat.eqb (fst ou) o.

Definition batch : OptimizerMethods store :=
  {| opt_on_state := fun o s h =>
       (Ok tt,
        {| next := next h; attached := attached h ++ [(o, s)];
           targets := targets h; pending := pending h;
           applied := applied h |});
     opt_on_target_shape := fun o sh h =>
       (Ok tt,
        {| next := next h; attached := attached h;
           targets := targets h ++ [(o, sh)]; pending := pending h;
           applied := applied h |});
     opt_record := fun o u h =>
       (Ok tt,
        {| next := next h; attached := attached h; targets := targets h;
           pending := pending h ++ [(o, u)]; applied := applied h |});
     opt_should_optimize := fun o h =>
       (Ok (2 <=? length (filter (mine o) (pending h))), h);
     opt_optimize := fun o h =>
       (Ok tt,
        {| next := next h; attached := attached h; targets := targets h;
           pending := filter (fun ou => negb (mine o ou)) (pending h);
           applied := applied h ++ filter (mine o) (pending h) |}) |}.

Definition weights : Array := {| buffer := 0; shape := [3; 2]%Z |}.
Definition bias : Array := {| buffer := 1; shape := [1; 2]%Z |}.
Definition weights_gradient : Array := {| buffer := 2; shape := [3; 2]%Z |}.
Definition bias_gradient : Array := {| buffer := 3; shape := [1; 2]%Z |}.

Definition Dense : Subclass store :=
  {| override_on_initializer := Some (fun _ h => (Ok tt, h));
     override_forward := Some (fun x h => (Ok x, h));
     override_backward := Some (fun g h =>
       (Ok (BackwardState__init__ g (Some [weights_gradient; bias_gradient])),
        h));
     override_parameters := Some (fun h => (Ok [weights; bias], h)) |}.

(** A dense layer, constructed and given the shared state [7]. *)
Definition constructed : World store :=
  {| self := Layer__init__ (Some (Some [1; 3]%Z)) (Some (Some [1; 2]%Z))
               (Some true);
     heap := empty; trace := [] |}.

Definition with_shared_state : World store := snd (on_state 7 constructed).

Definition ready : World store :=
  snd (on_optimizer batch Dense provider with_shared_state).

End Demo.

(** An event of [optimize] that belongs to one of the triples [ts]. *)
Definition from_triples (ts : list (Optimizer * Array * Array)) (ev : event)
    : Prop :=
  match ev with
  | EvRecord o u _ => In (o, parameter u, gradient u) ts
  | EvShouldOptimize o _ => exists p g, In (o, p, g) ts
  | EvOptimize o _ => exists p g, In (o, p, g) ts
  | _ => False
  end.

(** The optimizer an event is a call on, and the parameter it hands over. *)
Definition on_optimizer_object (o : Optimizer) (ev : event) : Prop :=
  match ev with
  | EvOnState o' _ _ => o' = o
  | EvOnTargetShape o' _ _ => o' = o
  | EvRecord o' _ _ => o' = o
  | EvShouldOptimize o' _ => o' = o
  | EvOptimize o' _ => o' = o
  | _ => False
  end.

Definition hands_over (p : Array) (ev : event) : Prop :=
  match ev with
  | EvRecord _ u _ => parameter u = p
  | _ => False
  end.

(** The calls made for a triple when [optimize] is interrupted there by the
    exception [e]: [record] raised, or [should_optimize] did, or the
    optimizer's [optimize] did. *)
Definition interrupted_dispatch (e : exn) (o : Optimizer) (u : Update)
    (evs : list event) : Prop :=
  evs = [EvRecord o u (Raise e)] \/
  evs = [EvRecord o u (Ok tt); EvShouldOptimize o (Raise e)] \/
  evs = [EvRecord o u (Ok tt); EvShouldOptimize o (Ok true);
         EvOptimize o (Raise e)].

(** Every call to an optimizer's [optimize] in [evs] comes right after a
    [should_optimize] on the same optimizer that answered true, itself right
    after a [record] on that optimizer that returned. *)
Definition optimize_is_gated (evs : list event) : Prop :=
  forall pre o r post,
    evs = pre ++ EvOptimize o r :: post ->
    exists pre' u,
      pre = pre' ++ [EvRecord o u (Ok tt); EvShouldOptimize o (Ok true)].

(** ** Collaborators that misbehave, to run the code on

    Not part of [layer.py]: a provider with a single optimizer to hand out, a
    provider that hands out the same optimizer at every call, an optimizer
    class whose [record] refuses the updates sent to optimizer [1], and an
    activation layer, which has no parameters. *)
Module Faults.

Definition single_provider : ext Demo.store Optimizer :=
  fun h =>
    if Nat.eqb (Demo.next h) 0
    then Demo.provider h
    else (Raise (OtherError "no optimizer left"), h).

Definition shared_provider : ext Demo.store Optimizer :=
  fun h => (Ok 0, h).

Definition fragile : OptimizerMethods Demo.store :=
  {| opt_on_state := opt_on_state Demo.batch;
     opt_on_target_shape := opt_on_target_shape Demo.batch;
     opt_record := fun o u h =>
       if Nat.eqb o 1
       then (Raise (OtherError "shape mismatch"), h)
       else opt_record Demo.batch o u h;
     opt_should_optimize := opt_should_optimize Demo.batch;
     opt_optimize := opt_optimize Demo.batch |}.

Definition Activation : Subclass Demo.store :=
  {| override_on_initializer := None;
     override_forward := Some (fun x h => (Ok x, h));
     override_backward := Some (fun g h =>
       (Ok (BackwardState__init__ g None), h));
     override_parameters := Some (fun h => (Ok [], h)) |}.

End Faults.

(** * Properties *)

Unset Implicit Arguments.

(** ** Sequences *)

Lemma zip3_length (A B C : Type) (xs : list A) :
  forall (ys : list B) (zs : list C),
    length (zip3 xs ys zs) = min (length xs) (min (length ys) (length zs)).
Proof.
  induction xs as [|x xs IH]; intros [|y ys] [|z zs]; simpl; auto.
Qed.

Lemma zip3_nth_error (A B C : Type) (xs : list A) :
  forall (ys : list B) (zs : list C) i x y z,
    nth_error (zip3 xs ys zs) i = Some (x, y, z) <->
    nth_error xs i = Some x /\ nth_error ys i = Some y /\
    nth_error zs i = Some z.
Proof.
  induction xs as [|x0 xs IH]; intros [|y0 ys] [|z0 zs] [|i] x y z; simpl;
    try (split; [discriminate | intros (H1 & H2 & H3); discriminate]).
  - split.
    + intros H. inversion H. auto.
    + intros (H1 & H2 & H3). congruence.
  - apply IH.
Qed.

Lemma zip3_In (A B C : Type) (xs : list A) (ys : list B) (zs : list C) x y z :
  In (x, y, z) (zip3 xs ys zs) ->
  exists i,
    i < min (length xs) (min (length ys) (length zs)) /\
    nth_error xs i = Some x /\ nth_error ys i = Some y /\
    nth_error zs i = Some z.
Proof.
  intros H. apply In_nth_error in H. destruct H as [i Hi].
  exists i. split.
  - rewrite <- zip3_length. apply nth_error_Some. congruence.
  - apply zip3_nth_error. exact Hi.
Qed.

Lemma nth_error_firstn_In (A : Type) (xs : list A) n i x :
  i < n -> nth_error xs i = Some x -> In x (firstn n xs).
Proof.
  intros Hi Hx. apply nth_error_In with (n := i).
  rewrite nth_error_firstn.
  destruct (Nat.ltb_spec i n); [exact Hx | lia].
Qed.

(** ** Reading traces *)

Lemma provided_attach_events s ps :
  forall os, length os = length ps ->
    provided (flat_map (attach_events s) (combine ps os)) = os.
Proof.
  induction ps as [|p ps IH]; intros [|o os] Hlen; simpl in *;
    try discriminate; auto.
  rewrite IH by lia. reflexivity.
Qed.

Lemma provider_calls_attach_events s ps :
  forall os, length os = length ps ->
    provider_calls (flat_map (attach_events s) (combine ps os)) = length ps.
Proof.
  induction ps as [|p ps IH]; intros [|o os] Hlen; simpl in *;
    try discriminate; auto.
Qed.

Lemma bound_attach_events s ps :
  forall os, length os = length ps ->
    bound (flat_map (attach_events s) (combine ps os))
    = combine os (map shape ps).
Proof.
  induction ps as [|p ps IH]; intros [|o os] Hlen; simpl in *;
    try discriminate; auto.
  rewrite IH by lia. reflexivity.
Qed.

Section Proofs.

Variable Heap : Type.
Variable O : OptimizerMethods Heap.

Implicit Types (w : World Heap) (C : Subclass Heap) (h : Heap).

(** ** The monad *)

Lemma bind_inv (A B : Type) (m : M Heap A) (k : A -> M Heap B) w r w' :
  bind m k w = (r, w') ->
  (exists e, m w = (Raise e, w') /\ r = Raise e) \/
  (exists a w1, m w = (Ok a, w1) /\ k a w1 = (r, w')).
Proof.
  unfold bind. destruct (m w) as [[a|e] w1]; intros H.
  - right. eauto.
  - left. inversion H. eauto.
Qed.

Lemma bind_Ok (A B : Type) (m : M Heap A) (k : A -> M Heap B) w b w' :
  bind m k w = (Ok b, w') ->
  exists a w1, m w = (Ok a, w1) /\ k a w1 = (Ok b, w').
Proof.
  intros H. apply bind_inv in H. destruct H as [(e & _ & H) | H].
  - discriminate.
  - exact H.
Qed.

Lemma call_inv (A : Type) (log : result A -> event) (f : ext Heap A) w r w' :
  call log f w = (r, w') ->
  exists h,
    f (heap w) = (r, h) /\
    w' = {| self := self w; heap := h; trace := trace w ++ [log r] |}.
Proof.
  unfold call. destruct (f (heap w)) as [r0 h]. intros H.
  inversion H. subst. eauto.
Qed.

Lemma get_state_inv w r w' :
  get_state w = (r, w') ->
  w' = w /\
  match r with
  | Ok s => state (self w) = Some s
  | Raise e => state (self w) = None /\ e = AttributeError "state"
  end.
Proof.
  unfold get_state. destruct (state (self w)); intros H; inversion H; auto.
Qed.

Lemma get_optimizers_inv w r w' :
  get_optimizers w = (r, w') ->
  w' = w /\
  match r with
  | Ok os => optimizers (self w) = Some os
  | Raise e => optimizers (self w) = None /\ e = AttributeError "optimizers"
  end.
Proof.
  unfold get_optimizers. destruct (optimizers (self w)); intros H;
    inversion H; auto.
Qed.

Lemma with_optimizers_same (l : Layer) os :
  optimizers l = Some os -> with_optimizers os l = l.
Proof. destruct l; simpl; intros H; subst; reflexivity. Qed.

(** ** Attaching the optimizers *)

(** One turn of the loop of [on_optimizer], when it completes. *)
Lemma attach_Ok provider (p : Array) w w1 :
  attach O provider p w = (Ok tt, w1) ->
  exists o s os0 h1 h2 h3,
    provider (heap w) = (Ok o, h1) /\
    state (self w) = Some s /\
    opt_on_state O o s h1 = (Ok tt, h2) /\
    opt_on_target_shape O o (shape p) h2 = (Ok tt, h3) /\
    optimizers (self w) = Some os0 /\
    w1 = {| self := with_optimizers (os0 ++ [o]) (self w);
            heap := h3;
            trace := trace w ++ attach_events s (p, o) |}.
Proof.
  unfold attach. intros H.
  apply bind_Ok in H. destruct H as (o & wa & Hprov & H).
  apply call_inv in Hprov. destruct Hprov as (h1 & Hprov & ->).
  apply bind_Ok in H. destruct H as (s & wb & Hs & H).
  apply get_state_inv in Hs. destruct Hs as [-> Hs]. simpl in Hs.
  apply bind_Ok in H. destruct H as ([] & wc & Hon & H).
  apply call_inv in Hon. destruct Hon as (h2 & Hon & ->). simpl in Hon.
  apply bind_Ok in H. destruct H as ([] & wd & Hts & H).
  apply call_inv in Hts. destruct Hts as (h3 & Hts & ->). simpl in Hts.
  apply bind_Ok in H. destruct H as (os0 & we & Hos & H).
  apply get_optimizers_inv in Hos. destruct Hos as [-> Hos]. simpl in Hos.
  unfold update_self in H. simpl in H. inversion H. subst w1. clear H.
  exists o, s, os0, h1, h2, h3. repeat split; auto.
  f_equal. rewrite <- !app_assoc. reflexivity.
Qed.

(** The loop of [on_optimizer], when it completes: one optimizer is appended
    per parameter, and the calls made are those of [attach_events]. *)
Lemma attach_loop provider (ps : list Array) :
  forall w w' os0,
    optimizers (self w) = Some os0 ->
    for_each ps (attach O provider) w = (Ok tt, w') ->
    exists os,
      length os = length ps /\
      self w' = with_optimizers (os0 ++ os) (self w) /\
      (ps = [] \/ exists s, state (self w) = Some s) /\
      (forall s, ps = [] \/ state (self w) = Some s ->
         trace w' = trace w ++ flat_map (attach_events s) (combine ps os)).
Proof.
  induction ps as [|p ps IH]; intros w w' os0 Hos H; simpl in H.
  - inversion H. subst w'. exists []. simpl.
    rewrite !app_nil_r. repeat split; auto.
    symmetry. apply with_optimizers_same. exact Hos.
  - apply bind_Ok in H. destruct H as ([] & w1 & Hp & H).
    apply attach_Ok in Hp.
    destruct Hp as (o & s0 & os1 & h1 & h2 & h3
                    & Hprov & Hs0 & Hon & Hts & Hos1 & ->).
    assert (os1 = os0) by congruence. subst os1.
    apply IH with (os0 := os0 ++ [o]) in H; [|reflexivity].
    destruct H as (os & Hlen & Hself & _ & Htrace). simpl in Hself, Htrace.
    exists (o :: os). simpl. repeat split.
    + congruence.
    + rewrite Hself. rewrite <- app_assoc. reflexivity.
    + right. eauto.
    + intros s [Hnil | Hs]; [discriminate|].
      assert (s = s0) by congruence. subst s.
      rewrite (Htrace s0) by (right; exact Hs0).
      rewrite <- app_assoc. reflexivity.
Qed.

(** [on_optimizer], when it completes. *)
Lemma on_optimizer_Ok C provider w w' :
  on_optimizer O C provider w = (Ok tt, w') ->
  exists ps h1 os,
    parameters_of C (heap w) = (Ok ps, h1) /\
    length os = length ps /\
    self w' = with_optimizers os (self w) /\
    (ps = [] \/ exists s, state (self w) = Some s) /\
    (forall s, ps = [] \/ state (self w) = Some s ->
       trace w' = trace w ++ EvParameters (Ok ps)
                   :: flat_map (attach_events s) (combine ps os)).
Proof.
  unfold on_optimizer. intros H.
  apply bind_Ok in H. destruct H as ([] & wa & Hset & H).
  unfold update_self in Hset. inversion Hset. subst wa. clear Hset.
  apply bind_Ok in H. destruct H as (ps & wb & Hps & H).
  apply call_inv in Hps. destruct Hps as (h1 & Hps & ->). simpl in Hps.
  apply attach_loop with (os0 := []) in H; [|reflexivity].
  destruct H as (os & Hlen & Hself & Hst & Htrace).
  simpl in Hself, Hst, Htrace.
  exists ps, h1, os. repeat split; auto.
  intros s Hs. rewrite (Htrace s Hs). rewrite <- app_assoc. reflexivity.
Qed.

(** One turn of the loop completes when the collaborators it calls do. *)
Lemma attach_run provider (p : Array) w o s os0 h1 h2 h3 :
  provider (heap w) = (Ok o, h1) ->
  state (self w) = Some s ->
  opt_on_state O o s h1 = (Ok tt, h2) ->
  opt_on_target_shape O o (shape p) h2 = (Ok tt, h3) ->
  optimizers (self w) = Some os0 ->
  attach O provider p w
  = (Ok tt, {| self := with_optimizers (os0 ++ [o]) (self w);
               heap := h3;
               trace := trace w ++ attach_events s (p, o) |}).
Proof.
  intros Hprov Hs Hon Hts Hos.
  unfold attach, bind, call, get_state, get_optimizers, update_self. simpl.
  rewrite Hprov. simpl. rewrite Hs. simpl. rewrite Hon. simpl.
  rewrite Hts. simpl.
  rewrite Hos. simpl. rewrite <- !app_assoc. reflexivity.
Qed.

(** X3.  [on_optimizer] raises nothing of its own on a layer with a shared
    state: it completes whenever [parameters()] returns and neither the
    provider nor the two optimizer hooks raise. *)
Lemma on_optimizer_completes C provider w ps h1 s :
  parameters_of C (heap w) = (Ok ps, h1) ->
  state (self w) = Some s ->
  (forall h, exists o h', provider h = (Ok o, h')) ->
  (forall o s' h, exists h', opt_on_state O o s' h = (Ok tt, h')) ->
  (forall o sh h, exists h', opt_on_target_shape O o sh h = (Ok tt, h')) ->
  exists w', on_optimizer O C provider w = (Ok tt, w').
Proof.
  intros Hps Hs Hprov Hon Hts.
  assert (Hloop : forall qs w0 os0,
             state (self w0) = Some s ->
             optimizers (self w0) = Some os0 ->
             exists w', for_each qs (attach O provider) w0 = (Ok tt, w')).
  { induction qs as [|q qs IH]; intros w0 os0 Hs0 Hos0; simpl.
    - eexists. reflexivity.
    - destruct (Hprov (heap w0)) as (o & ha & Ha).
      destruct (Hon o s ha) as (hb & Hb).
      destruct (Hts o (shape q) hb) as (hc & Hc).
      unfold bind at 1.
      rewrite (attach_run provider q w0 o s os0 ha hb hc Ha Hs0 Hb Hc Hos0).
      eapply IH; simpl; eauto. }
  unfold on_optimizer, bind, update_self, call. simpl.
  rewrite Hps. eapply Hloop; simpl; eauto.
Qed.

(** C1.  When [on_optimizer] completes, the layer's optimizer list is as
    long as the tuple [parameters()] returned to it; the optimizers of the
    list are, in order, those the provider handed out, and the i-th of them
    was bound ([on_target_shape]) to the shape of the i-th parameter. *)
Theorem on_optimizer_one_optimizer_per_parameter C provider w w' :
  on_optimizer O C provider w = (Ok tt, w') ->
  exists ps h1 os evs,
    parameters_of C (heap w) = (Ok ps, h1) /\
    trace w' = trace w ++ EvParameters (Ok ps) :: evs /\
    optimizers (self w') = Some os /\
    length os = length ps /\
    provided evs = os /\
    bound evs = combine os (map shape ps).
Proof.
  intros H. apply on_optimizer_Ok in H.
  destruct H as (ps & h1 & os & Hps & Hlen & Hself & Hst & Htrace).
  assert (Hs : exists s, ps = [] \/ state (self w) = Some s).
  { destruct Hst as [Hnil | [s Hs]]; [exists 0 | exists s]; auto. }
  destruct Hs as [s Hs].
  exists ps, h1, os, (flat_map (attach_events s) (combine ps os)).
  repeat split.
  - exact Hps.
  - apply Htrace. exact Hs.
  - rewrite Hself. reflexivity.
  - exact Hlen.
  - apply provided_attach_events. exact Hlen.
  - apply bound_attach_events. exact Hlen.
Qed.

(** C3.  A run of [on_optimizer] that completes on a layer with shared state
    [s] has made, after the call to [parameters()], exactly these calls, in
    this order: for each parameter in turn, one call to the provider, then
    [on_state(s)] and then [on_target_shape(parameter.shape)] on the
    optimizer the provider returned.  The provider is called once per
    parameter, and the optimizers make up the layer's list in that order. *)
Theorem on_optimizer_calls_in_order C provider w w' s :
  state (self w) = Some s ->
  on_optimizer O C provider w = (Ok tt, w') ->
  exists ps h1 os,
    parameters_of C (heap w) = (Ok ps, h1) /\
    length os = length ps /\
    trace w' = trace w ++ EvParameters (Ok ps)
                :: flat_map (attach_events s) (combine ps os) /\
    provider_calls (flat_map (attach_events s) (combine ps os)) = length ps /\
    self w' = with_optimizers os (self w).
Proof.
  intros Hs H. apply on_optimizer_Ok in H.
  destruct H as (ps & h1 & os & Hps & Hlen & Hself & _ & Htrace).
  exists ps, h1, os. repeat split; auto.
  apply provider_calls_attach_events. exact Hlen.
Qed.

(** One turn of the loop of [on_optimizer], however it ends: the optimizer
    joins the list only once its two hooks have returned. *)
Lemma attach_cases provider (p : Array) w r w1 s os0 :
  state (self w) = Some s ->
  optimizers (self w) = Some os0 ->
  attach O provider p w = (r, w1) ->
  (r = Ok tt /\
   exists o h1,
     w1 = {| self := with_optimizers (os0 ++ [o]) (self w); heap := h1;
             trace := trace w ++ attach_events s (p, o) |})
  \/
  (exists e evs h1,
     r = Raise e /\ interrupted s e p evs /\
     w1 = {| self := self w; heap := h1; trace := trace w ++ evs |}).
Proof.
  intros Hs Hos H. unfold attach in H.
  apply bind_inv in H. destruct H as [(e & Hprov & ->) | (o & wa & Hprov & H)];
    apply call_inv in Hprov; destruct Hprov as (h1 & Hprov & ->).
  { right. exists e, [EvProvider (Raise e)], h1. unfold interrupted. auto. }
  apply bind_inv in H. destruct H as [(e & Hg & ->) | (s' & wb & Hg & H)];
    apply get_state_inv in Hg; destruct Hg as [-> Hg]; simpl in Hg.
  { destruct Hg as [Hg _]. congruence. }
  assert (s' = s) by congruence. subst s'.
  apply bind_inv in H. destruct H as [(e & Hon & ->) | ([] & wc & Hon & H)];
    apply call_inv in Hon; destruct Hon as (h2 & Hon & ->); simpl in *.
  { right. exists e, [EvProvider (Ok o); EvOnState o s (Raise e)], h2.
    rewrite <- app_assoc. unfold interrupted. eauto 6. }
  apply bind_inv in H. destruct H as [(e & Hts & ->) | ([] & wd & Hts & H)];
    apply call_inv in Hts; destruct Hts as (h3 & Hts & ->); simpl in *.
  { right.
    exists e, [EvProvider (Ok o); EvOnState o s (Ok tt);
               EvOnTargetShape o (shape p) (Raise e)], h3.
    rewrite <- !app_assoc. unfold interrupted. eauto 6. }
  apply bind_inv in H. destruct H as [(e & Hgo & ->) | (os1 & we & Hgo & H)];
    apply get_optimizers_inv in Hgo; destruct Hgo as [-> Hgo]; simpl in Hgo.
  { destruct Hgo as [Hgo _]. congruence. }
  assert (os1 = os0) by congruence. subst os1.
  unfold update_self in H. simpl in H. inversion H. subst.
  left. split; [reflexivity|]. exists o, h3.
  rewrite <- !app_assoc. reflexivity.
Qed.

(** The loop of [on_optimizer], however it ends.  The optimizers in the list
    are those whose three calls returned, for the first parameters in order;
    a run that raises stops inside the calls for the next parameter, whose
    optimizer is not in the list. *)
Lemma attach_loop_any provider (ps : list Array) s :
  forall w r w' os0,
    state (self w) = Some s ->
    optimizers (self w) = Some os0 ->
    for_each ps (attach O provider) w = (r, w') ->
    exists os rest,
      self w' = with_optimizers (os0 ++ os) (self w) /\
      trace w' = trace w ++ flat_map (attach_events s) (combine ps os) ++ rest /\
      (r = Ok tt -> length os = length ps /\ rest = []) /\
      (forall e, r = Raise e ->
         exists p, nth_error ps (length os) = Some p /\ interrupted s e p rest).
Proof.
  induction ps as [|p ps IH]; intros w r w' os0 Hs Hos H; simpl in H.
  - inversion H. subst. exists [], []. simpl. rewrite !app_nil_r.
    repeat split; auto.
    + symmetry. apply with_optimizers_same. exact Hos.
    + discriminate.
  - apply bind_inv in H. destruct H as [(e & Hp & ->) | ([] & w1 & Hp & H)];
      apply (attach_cases _ _ _ _ _ _ _ Hs Hos) in Hp;
      destruct Hp as [(Hr & o & h1 & ->) | (e' & evs & h1 & Hr & Hint & ->)];
      try discriminate.
    + inversion Hr. subst e'. exists [], evs. simpl. rewrite app_nil_r.
      repeat split.
      * symmetry. apply with_optimizers_same. exact Hos.
      * discriminate.
      * discriminate.
      * intros e0 He0. inversion He0. subst e0. exists p. auto.
    + apply IH with (os0 := os0 ++ [o]) in H; [|exact Hs|reflexivity].
      destruct H as (os & rest & Hself & Htrace & Hok & Hraise).
      simpl in Hself, Htrace.
      exists (o :: os), rest. simpl. repeat split.
      * rewrite Hself, <- app_assoc. reflexivity.
      * rewrite Htrace, <- app_assoc. reflexivity.
      * f_equal. apply Hok. assumption.
      * apply Hok. assumption.
      * exact Hraise.
Qed.

(** X2.  [on_optimizer], however it ends, on a layer with shared state [s]
    whose [parameters()] returns [ps]: the list holds the optimizers of the
    first parameters, each provided, given the state and bound in turn; a run
    that completes has done so for every parameter, and a run that raises
    stopped inside the calls for the next parameter, at the call that raised,
    without adding that parameter's optimizer to the list. *)
Lemma on_optimizer_any C provider w r w' s ps h1 :
  state (self w) = Some s ->
  parameters_of C (heap w) = (Ok ps, h1) ->
  on_optimizer O C provider w = (r, w') ->
  exists os rest,
    optimizers (self w') = Some os /\
    trace w' = trace w ++ EvParameters (Ok ps)
                :: flat_map (attach_events s) (combine ps os) ++ rest /\
    (r = Ok tt -> length os = length ps /\ rest = []) /\
    (forall e, r = Raise e ->
       exists p, nth_error ps (length os) = Some p /\ interrupted s e p rest).
Proof.
  intros Hs Hps H.
  unfold on_optimizer, bind, update_self, call in H. simpl in H.
  rewrite Hps in H.
  apply attach_loop_any with (s := s) (os0 := []) in H; [|exact Hs|reflexivity].
  destruct H as (os & rest & Hself & Htrace & Hok & Hraise).
  simpl in Hself, Htrace.
  exists os, rest. rewrite Hself, Htrace, <- app_assoc.
  repeat split; auto; apply Hok; assumption.
Qed.

(** ** Dispatching the updates *)

(** The ways one turn of the loop of [optimize] can go. *)
Lemma dispatch_cases o (p g : Array) w r w1 :
  dispatch O (o, p, g) w = (r, w1) ->
  let u := {| parameter := p; gradient := g |} in
  exists evs h1,
    w1 = {| self := self w; heap := h1; trace := trace w ++ evs |} /\
    ((exists e,
        r = Raise e /\
        opt_record O o u (heap w) = (Raise e, h1) /\
        evs = [EvRecord o u (Raise e)])
     \/
     (exists e ha,
        r = Raise e /\
        opt_record O o u (heap w) = (Ok tt, ha) /\
        opt_should_optimize O o ha = (Raise e, h1) /\
        evs = [EvRecord o u (Ok tt); EvShouldOptimize o (Raise e)])
     \/
     (exists ha,
        r = Ok tt /\
        opt_record O o u (heap w) = (Ok tt, ha) /\
        opt_should_optimize O o ha = (Ok false, h1) /\
        evs = [EvRecord o u (Ok tt); EvShouldOptimize o (Ok false)])
     \/
     (exists ha hb,
        opt_record O o u (heap w) = (Ok tt, ha) /\
        opt_should_optimize O o ha = (Ok true, hb) /\
        opt_optimize O o hb = (r, h1) /\
        evs = [EvRecord o u (Ok tt); EvShouldOptimize o (Ok true);
               EvOptimize o r])).
Proof.
  intros H u. unfold dispatch in H. fold u in H.
  apply bind_inv in H. destruct H as [(e & Hrec & ->) | ([] & wa & Hrec & H)];
    apply call_inv in Hrec; destruct Hrec as (ha & Hrec & ->).
  { exists [EvRecord o u (Raise e)], ha. split; [reflexivity|].
    left. eauto. }
  apply bind_inv in H.
  destruct H as [(e & Hso & ->) | (ready & wb & Hso & H)];
    apply call_inv in Hso; destruct Hso as (hb & Hso & ->); simpl in *.
  { exists [EvRecord o u (Ok tt); EvShouldOptimize o (Raise e)], hb.
    split; [rewrite <- app_assoc; reflexivity|].
    right. left. eauto 7. }
  destruct ready.
  - apply call_inv in H. destruct H as (hc & Hopt & ->). simpl in *.
    exists [EvRecord o u (Ok tt); EvShouldOptimize o (Ok true);
            EvOptimize o r], hc.
    split; [rewrite <- !app_assoc; reflexivity|].
    right. right. right. eauto 7.
  - inversion H. subst.
    exists [EvRecord o u (Ok tt); EvShouldOptimize o (Ok false)], hb.
    split; [rewrite <- app_assoc; reflexivity|].
    right. right. left. eauto 7.
Qed.

(** The loop of [optimize], when it completes, is a dispatch in the sense of
    the spec. *)
Lemma dispatch_loop_Ok (ts : list (Optimizer * Array * Array)) :
  forall w w',
    for_each ts (dispatch O) w = (Ok tt, w') ->
    exists evs,
      dispatched O ts (heap w) evs (heap w') /\
      trace w' = trace w ++ evs /\
      self w' = self w.
Proof.
  induction ts as [|[[o p] g] ts IH]; intros w w' H; simpl in H.
  - inversion H. subst. exists []. rewrite app_nil_r.
    repeat split. constructor.
  - apply bind_Ok in H. destruct H as ([] & w1 & Hd & H).
    apply dispatch_cases in Hd. destruct Hd as (evs1 & h1 & -> & Hd).
    apply IH in H. destruct H as (evs & Hdisp & Htrace & Hself).
    simpl in Hdisp, Htrace, Hself.
    exists (evs1 ++ evs). rewrite Htrace, Hself, app_assoc.
    split; [|split; reflexivity].
    destruct Hd as [(e & He & _) | [(e & ha & He & _)
                   | [(ha & _ & Hrec & Hso & ->) | (ha & hb & Hrec & Hso & Hopt & ->)]]];
      try discriminate; simpl.
    + eapply dispatched_deferred; eauto.
    + eapply dispatched_applied; eauto.
Qed.

(** Conversely the loop completes whenever the calls it makes do. *)
Lemma dispatched_run ts h evs h' :
  dispatched O ts h evs h' ->
  forall l t,
    for_each ts (dispatch O) {| self := l; heap := h; trace := t |}
    = (Ok tt, {| self := l; heap := h'; trace := t ++ evs |}).
Proof.
  induction 1 as [h | o p g ts h h1 h2 h3 evs h' u Hrec Hso Hopt _ IH
                    | o p g ts h h1 h2 evs h' u Hrec Hso _ IH]; intros l t.
  - simpl. unfold ret. rewrite app_nil_r. reflexivity.
  - simpl. unfold bind at 1. unfold dispatch, bind, call. simpl. fold u.
    rewrite Hrec. simpl. rewrite Hso. simpl. rewrite Hopt.
    rewrite IH. rewrite <- !app_assoc. reflexivity.
  - simpl. unfold bind at 1. unfold dispatch, bind, call, ret. simpl. fold u.
    rewrite Hrec. simpl. rewrite Hso. simpl.
    rewrite IH. rewrite <- !app_assoc. reflexivity.
Qed.

(** What a dispatch logs: one [record] per triple, and only calls that
    belong to the triples. *)
Lemma dispatched_records ts h evs h' :
  dispatched O ts h evs h' -> records evs = length ts.
Proof. induction 1; simpl; auto. Qed.

Lemma from_triples_cons t ts ev :
  from_triples ts ev -> from_triples (t :: ts) ev.
Proof.
  destruct ev; simpl; auto.
  - intros (p & g & H). eauto.
  - intros (p & g & H). eauto.
Qed.

(** One turn of the loop of [optimize], however it ends. *)
Lemma dispatch_events o (p g : Array) ts w r w1 :
  dispatch O (o, p, g) w = (r, w1) ->
  exists evs,
    trace w1 = trace w ++ evs /\
    self w1 = self w /\
    Forall (from_triples ((o, p, g) :: ts)) evs /\
    (forall e, r = Raise e ->
       exists pre ev, evs = pre ++ [ev] /\ event_exn ev = Some e).
Proof.
  intros H. apply dispatch_cases in H.
  destruct H as (evs & h1 & -> & H). exists evs. simpl.
  split; [reflexivity|]. split; [reflexivity|].
  assert (Hrec : forall q,
             from_triples ((o, p, g) :: ts)
               (EvRecord o {| parameter := p; gradient := g |} q))
    by (intros q; simpl; auto).
  assert (Hso : forall q,
             from_triples ((o, p, g) :: ts) (EvShouldOptimize o q))
    by (intros q; simpl; eauto).
  assert (Hopt : forall q, from_triples ((o, p, g) :: ts) (EvOptimize o q))
    by (intros q; simpl; eauto).
  destruct H as [(e & -> & _ & ->) | [(e & ha & -> & _ & _ & ->)
                | [(ha & -> & _ & _ & ->) | (ha & hb & _ & _ & _ & ->)]]].
  - split; [repeat constructor; auto|].
    intros e0 He0. inversion He0. subst e0.
    exists [], (EvRecord o {| parameter := p; gradient := g |} (Raise e)).
    auto.
  - split; [repeat constructor; auto|].
    intros e0 He0. inversion He0. subst e0.
    exists [EvRecord o {| parameter := p; gradient := g |} (Ok tt)],
           (EvShouldOptimize o (Raise e)).
    auto.
  - split; [repeat constructor; auto|]. discriminate.
  - split; [repeat constructor; auto|].
    intros e0 ->.
    exists [EvRecord o {| parameter := p; gradient := g |} (Ok tt);
            EvShouldOptimize o (Ok true)],
           (EvOptimize o (Raise e0)).
    auto.
Qed.

(** The loop of [optimize], however it ends: it leaves [self] alone, every
    call it makes belongs to one of the triples, and an exception it ends
    with is the one the last call raised. *)
Lemma dispatch_loop_events (ts : list (Optimizer * Array * Array)) :
  forall w r w',
    for_each ts (dispatch O) w = (r, w') ->
    exists evs,
      trace w' = trace w ++ evs /\
      self w' = self w /\
      Forall (from_triples ts) evs /\
      (forall e, r = Raise e ->
         exists pre ev, evs = pre ++ [ev] /\ event_exn ev = Some e).
Proof.
  induction ts as [|[[o p] g] ts IH]; intros w r w' H; simpl in H.
  - inversion H. subst. exists []. rewrite app_nil_r.
    repeat split; auto. discriminate.
  - apply bind_inv in H. destruct H as [(e & Hd & ->) | ([] & w1 & Hd & H)];
      apply dispatch_events with (ts := ts) in Hd;
      destruct Hd as (evs1 & Htrace1 & Hself1 & Hall1 & Hlast1).
    + exists evs1. auto.
    + apply IH in H. destruct H as (evs & Htrace & Hself & Hall & Hlast).
      exists (evs1 ++ evs).
      rewrite Htrace, Htrace1, Hself, Hself1, app_assoc.
      repeat split.
      * apply Forall_app. split; [exact Hall1|].
        eapply Forall_impl; [|exact Hall].
        intros ev. apply from_triples_cons.
      * intros e He. destruct (Hlast e He) as (pre & ev & -> & Hev).
        exists (evs1 ++ pre), ev. rewrite app_assoc. auto.
Qed.

(** [optimize] on a layer whose optimizer list exists: the list is read,
    [parameters()] is called, and the loop runs over the zipped triples. *)
Lemma optimize_attached C gs w os ps h1 :
  optimizers (self w) = Some os ->
  parameters_of C (heap w) = (Ok ps, h1) ->
  optimize O C gs w
  = for_each (zip3 os ps gs) (dispatch O)
      {| self := self w; heap := h1;
         trace := trace w ++ [EvParameters (Ok ps)] |}.
Proof.
  intros Hos Hps. unfold optimize, bind, get_optimizers, call.
  rewrite Hos, Hps. reflexivity.
Qed.

(** [optimize] on a layer that has no optimizer list: reading the attribute
    raises before anything else happens. *)
Lemma optimize_unattached C gs w :
  optimizers (self w) = None ->
  optimize O C gs w = (Raise (AttributeError "optimizers"), w).
Proof.
  intros Hos. unfold optimize, bind, get_optimizers.
  rewrite Hos. reflexivity.
Qed.

Lemma before_on_optimizer_unattached w :
  before_on_optimizer O w -> optimizers (self w) = None.
Proof.
  induction 1 as [i o t h | s w _ IH | C gs w _ IH | C w _ IH | w h _ IH];
    simpl; auto.
  - rewrite optimize_unattached by exact IH. exact IH.
  - unfold call. destruct (parameters_of C (heap w)). exact IH.
Qed.

(** X9.  [optimize] raises nothing of its own once the list exists: whatever
    the three lengths, it completes whenever [parameters()] returns and the
    optimizer methods do not raise. *)
Lemma optimize_completes C gs w os ps h1 :
  optimizers (self w) = Some os ->
  parameters_of C (heap w) = (Ok ps, h1) ->
  (forall o u h, exists h', opt_record O o u h = (Ok tt, h')) ->
  (forall o h, exists b h', opt_should_optimize O o h = (Ok b, h')) ->
  (forall o h, exists h', opt_optimize O o h = (Ok tt, h')) ->
  exists w', optimize O C gs w = (Ok tt, w').
Proof.
  intros Hos Hps Hrec Hso Hopt.
  rewrite (optimize_attached C gs w os ps h1 Hos Hps).
  assert (Hloop : forall ts h, exists evs h', dispatched O ts h evs h').
  { induction ts as [|[[o p] g] ts IH]; intros h.
    - exists [], h. constructor.
    - destruct (Hrec o {| parameter := p; gradient := g |} h) as (ha & Ha).
      destruct (Hso o ha) as ([|] & hb & Hb).
      + destruct (Hopt o hb) as (hc & Hc).
        destruct (IH hc) as (evs & h' & Hd).
        eexists. exists h'. eapply dispatched_applied; eauto.
      + destruct (IH hb) as (evs & h' & Hd).
        eexists. exists h'. eapply dispatched_deferred; eauto. }
  destruct (Hloop (zip3 os ps gs) h1) as (evs & h' & Hd).
  eexists. apply dispatched_run. exact Hd.
Qed.

(** C2.  On a layer with an optimizer per parameter, and with a gradient per
    parameter, the zipped triples are the (optimizer, parameter, gradient)
    at each index, one per parameter; and [optimize] completes exactly when
    they are dispatched in order as the spec says: each triple is recorded on
    its optimizer, which is then asked [should_optimize()] and, exactly when
    it answers true, told to [optimize()]. *)
Theorem optimize_records_then_applies C gs w w' os ps h1 :
  optimizers (self w) = Some os ->
  parameters_of C (heap w) = (Ok ps, h1) ->
  length os = length ps ->
  length gs = length ps ->
  length (zip3 os ps gs) = length ps /\
  (forall i o p g,
     nth_error os i = Some o -> nth_error ps i = Some p ->
     nth_error gs i = Some g ->
     nth_error (zip3 os ps gs) i = Some (o, p, g)) /\
  (optimize O C gs w = (Ok tt, w') <->
   exists evs,
     dispatched O (zip3 os ps gs) h1 evs (heap w') /\
     trace w' = trace w ++ EvParameters (Ok ps) :: evs /\
     self w' = self w).
Proof.
  intros Hos Hps Hlo Hlg. split; [|split].
  - rewrite zip3_length. lia.
  - intros i o p g Ho Hp Hg. apply zip3_nth_error. auto.
  - rewrite (optimize_attached C gs w os ps h1 Hos Hps). split.
    + intros H. apply dispatch_loop_Ok in H.
      destruct H as (evs & Hdisp & Htrace & Hself). simpl in *.
      exists evs. rewrite Htrace, <- app_assoc. auto.
    + intros (evs & Hdisp & Htrace & Hself).
      rewrite (dispatched_run _ _ _ _ Hdisp).
      destruct w' as [l' h' t']. simpl in *. subst l' t'.
      rewrite <- app_assoc. reflexivity.
Qed.

(** C5.  On a layer whose [on_optimizer] has never run, [optimize] raises
    [AttributeError] for the attribute [optimizers], whatever the gradients:
    it calls nothing (not even [parameters()]) and changes nothing. *)
Theorem optimize_before_on_optimizer_raises C gs w :
  before_on_optimizer O w ->
  optimize O C gs w = (Raise (AttributeError "optimizers"), w).
Proof.
  intros H. apply optimize_unattached.
  apply before_on_optimizer_unattached. exact H.
Qed.

(** C4, as the code has it.  From construction until [on_optimizer] runs the
    layer has no optimizer list at all: the attribute does not exist.  A run
    of [on_optimizer] that completes leaves a list with one optimizer per
    parameter that [parameters()] returned. *)
Theorem optimizers_absent_until_on_optimizer :
  (forall w, before_on_optimizer O w -> optimizers (self w) = None) /\
  (forall C provider w w',
     on_optimizer O C provider w = (Ok tt, w') ->
     exists ps h1 os,
       parameters_of C (heap w) = (Ok ps, h1) /\
       optimizers (self w') = Some os /\
       length os = length ps).
Proof.
  split.
  - exact before_on_optimizer_unattached.
  - intros C provider w w' H. apply on_optimizer_Ok in H.
    destruct H as (ps & h1 & os & Hps & Hlen & Hself & _).
    exists ps, h1, os. rewrite Hself. auto.
Qed.

(** C8.  Whatever the lengths of the optimizer list, of [parameters()] and of
    the gradients, [optimize] raises nothing of its own: an exception it ends
    with is the one its last call raised.  With [n] the shortest of the three
    lengths, a run that completes has recorded exactly [n] updates, those of
    the first [n] triples; and however the run ends, every call belongs to a
    triple of index below [n], so that no optimizer and no parameter beyond
    the first [n] is touched. *)
Theorem optimize_stops_with_shortest C gs w r w' os ps h1 :
  optimizers (self w) = Some os ->
  parameters_of C (heap w) = (Ok ps, h1) ->
  optimize O C gs w = (r, w') ->
  let n := min (length os) (min (length ps) (length gs)) in
  exists evs,
    trace w' = trace w ++ EvParameters (Ok ps) :: evs /\
    self w' = self w /\
    (r = Ok tt ->
       records evs = n /\ dispatched O (zip3 os ps gs) h1 evs (heap w')) /\
    (forall e, r = Raise e ->
       exists pre ev, evs = pre ++ [ev] /\ event_exn ev = Some e) /\
    Forall (fun ev => exists i, i < n /\ at_index os ps gs i ev) evs /\
    (forall o, ~ In o (firstn n os) ->
       Forall (fun ev => ~ on_optimizer_object o ev) evs) /\
    (forall p, ~ In p (firstn n ps) ->
       Forall (fun ev => ~ hands_over p ev) evs).
Proof.
  intros Hos Hps H n.
  rewrite (optimize_attached C gs w os ps h1 Hos Hps) in H.
  pose proof (dispatch_loop_events _ _ _ _ H) as (evs & Htrace & Hself & Hall & Hlast).
  simpl in Htrace, Hself.
  assert (Hidx : Forall (fun ev => exists i, i < n /\ at_index os ps gs i ev) evs).
  { eapply Forall_impl; [|exact Hall].
    intros ev Hev. destruct ev as [| | | | o u q | o q | o q]; simpl in Hev;
      try contradiction.
    - apply zip3_In in Hev. destruct Hev as (i & Hi & Ho & Hp & Hg).
      exists i. simpl. auto.
    - destruct Hev as (p & g & Hev). apply zip3_In in Hev.
      destruct Hev as (i & Hi & Ho & _). exists i. simpl. auto.
    - destruct Hev as (p & g & Hev). apply zip3_In in Hev.
      destruct Hev as (i & Hi & Ho & _). exists i. simpl. auto. }
  exists evs. rewrite Htrace, <- app_assoc. repeat split; auto.
  - subst r. apply dispatch_loop_Ok in H.
    destruct H as (evs' & Hdisp & Htrace' & _). simpl in *.
    rewrite Htrace in Htrace'. apply app_inv_head in Htrace'. subst evs'.
    rewrite (dispatched_records _ _ _ _ Hdisp), zip3_length. reflexivity.
  - subst r. apply dispatch_loop_Ok in H.
    destruct H as (evs' & Hdisp & Htrace' & _). simpl in *.
    rewrite Htrace in Htrace'. apply app_inv_head in Htrace'. subst evs'.
    exact Hdisp.
  - intros o Ho. eapply Forall_impl; [|exact Hidx].
    intros ev (i & Hi & Hev) Hon. apply Ho.
    destruct ev; simpl in Hev, Hon; try contradiction; subst;
      try destruct Hev as (Hev & _);
      eapply nth_error_firstn_In; eauto.
  - intros p Hp. eapply Forall_impl; [|exact Hidx].
    intros ev (i & Hi & Hev) Hh. apply Hp.
    destruct ev; simpl in Hev, Hh; try contradiction; subst.
    destruct Hev as (_ & Hev & _).
    eapply nth_error_firstn_In; eauto.
Qed.

(** C6.  A method of the base abstraction that the concrete class does not
    override raises [NotImplementedError] for every argument, and never
    returns a value. *)
Theorem inherited_method_raises C (m : method) :
  overridden C m = false -> not_implemented C m.
Proof.
  destruct C as [oi fw bw pa].
  destruct m; simpl; intros H.
  - destruct oi; [discriminate|]. reflexivity.
  - destruct fw; [discriminate|]. reflexivity.
  - destruct bw; [discriminate|]. reflexivity.
  - destruct pa; [discriminate|]. reflexivity.
Qed.

(** ** More on [on_optimizer] *)

Lemma bound_app t1 t2 : bound (t1 ++ t2) = bound t1 ++ bound t2.
Proof.
  induction t1 as [|ev t1 IH]; simpl; auto.
  destruct ev as [| | | o sh [u|e] | | |]; simpl; rewrite IH; reflexivity.
Qed.

(** One turn of the loop of [on_optimizer], with or without a shared state:
    the list grows by the optimizer exactly when its [on_target_shape]
    returned. *)
Lemma attach_bound provider (p : Array) w r w1 os0 :
  optimizers (self w) = Some os0 ->
  attach O provider p w = (r, w1) ->
  exists evs,
    trace w1 = trace w ++ evs /\
    self w1 = with_optimizers (os0 ++ map fst (bound evs)) (self w) /\
    match r with
    | Ok _ => length (bound evs) = 1
    | Raise _ => bound evs = []
    end.
Proof.
  intros Hos H.
  assert (Hsame : self w = with_optimizers (os0 ++ []) (self w)).
  { rewrite app_nil_r. symmetry. apply with_optimizers_same. exact Hos. }
  unfold attach in H.
  apply bind_inv in H. destruct H as [(e & Hprov & ->) | (o & wa & Hprov & H)];
    apply call_inv in Hprov; destruct Hprov as (h1 & Hprov & ->).
  { exists [EvProvider (Raise e)]. simpl.
    repeat split; auto. }
  apply bind_inv in H. destruct H as [(e & Hg & ->) | (s & wb & Hg & H)];
    apply get_state_inv in Hg; destruct Hg as [-> Hg]; simpl in Hg.
  { exists [EvProvider (Ok o)]. simpl. repeat split; auto. }
  apply bind_inv in H. destruct H as [(e & Hon & ->) | ([] & wc & Hon & H)];
    apply call_inv in Hon; destruct Hon as (h2 & Hon & ->); simpl in *.
  { exists [EvProvider (Ok o); EvOnState o s (Raise e)]. simpl.
    rewrite <- app_assoc. repeat split; auto. }
  apply bind_inv in H. destruct H as [(e & Hts & ->) | ([] & wd & Hts & H)];
    apply call_inv in Hts; destruct Hts as (h3 & Hts & ->); simpl in *.
  { exists [EvProvider (Ok o); EvOnState o s (Ok tt);
            EvOnTargetShape o (shape p) (Raise e)]. simpl.
    rewrite <- !app_assoc. repeat split; auto. }
  apply bind_inv in H. destruct H as [(e & Hgo & ->) | (os1 & we & Hgo & H)];
    apply get_optimizers_inv in Hgo; destruct Hgo as [-> Hgo]; simpl in Hgo.
  { destruct Hgo as [Hgo _]. congruence. }
  assert (os1 = os0) by congruence. subst os1.
  unfold update_self in H. simpl in H. inversion H. subst.
  exists (attach_events s (p, o)). simpl.
  rewrite <- !app_assoc. repeat split; auto.
Qed.

Lemma attach_loop_bound provider (ps : list Array) :
  forall w r w' os0,
    optimizers (self w) = Some os0 ->
    for_each ps (attach O provider) w = (r, w') ->
    exists evs,
      trace w' = trace w ++ evs /\
      self w' = with_optimizers (os0 ++ map fst (bound evs)) (self w) /\
      length (bound evs) <= length ps /\
      (r = Ok tt -> length (bound evs) = length ps).
Proof.
  induction ps as [|p ps IH]; intros w r w' os0 Hos H; simpl in H.
  - inversion H. subst. exists []. simpl. rewrite !app_nil_r.
    repeat split; auto.
    symmetry. apply with_optimizers_same. exact Hos.
  - apply bind_inv in H. destruct H as [(e & Hp & ->) | ([] & w1 & Hp & H)];
      apply (attach_bound _ _ _ _ _ _ Hos) in Hp;
      destruct Hp as (evs1 & Htrace1 & Hself1 & Hone).
    + exists evs1. rewrite Hone in *. simpl.
      split; [exact Htrace1|]. split; [exact Hself1|].
      split; [lia|discriminate].
    + apply IH with (os0 := os0 ++ map fst (bound evs1)) in H;
        [|rewrite Hself1; reflexivity].
      destruct H as (evs & Htrace & Hself & Hle & Hok).
      exists (evs1 ++ evs).
      rewrite Htrace, Htrace1, Hself, Hself1, bound_app, map_app, length_app,
        !app_assoc. simpl.
      repeat split; auto; try lia.
      intros Hr. specialize (Hok Hr). lia.
Qed.


(** X1.  However [on_optimizer] ends, [optimizers] is the only attribute it
    changes, and the list it leaves holds exactly the optimizers whose
    [on_target_shape] returned during this call, in the order of the calls:
    a list that existed before is discarded, and an optimizer joins the list
    only once it is bound. *)
Theorem on_optimizer_list_is_what_was_bound C provider w :
  exists evs,
    trace (snd (on_optimizer O C provider w)) = trace w ++ evs /\
    self (snd (on_optimizer O C provider w))
    = with_optimizers (map fst (bound evs)) (self w).
Proof.
  destruct (on_optimizer O C provider w) as [r w'] eqn:H. simpl.
  unfold on_optimizer in H.
  apply bind_inv in H. destruct H as [(e & Hset & _) | ([] & wa & Hset & H)];
    unfold update_self in Hset; inversion Hset. subst wa. clear Hset.
  apply bind_inv in H. destruct H as [(e & Hps & ->) | (ps & wb & Hps & H)];
    apply call_inv in Hps; destruct Hps as (h1 & Hps & ->); simpl in *.
  - exists [EvParameters (Raise e)]. split; reflexivity.
  - apply attach_loop_bound with (os0 := []) in H; [|reflexivity].
    destruct H as (evs & Htrace & Hself & _). simpl in *.
    exists (EvParameters (Ok ps) :: evs). simpl.
    rewrite Htrace, Hself, <- app_assoc. split; reflexivity.
Qed.

(** X4.  When [parameters()] raises (as it does on a class that does not
    override it), [on_optimizer] raises the same exception without calling
    the provider, but has already created the list: the layer is left with
    an empty optimizer list, so that a later [optimize] gets past reading
    the list and fails in [parameters()] instead. *)
Theorem on_optimizer_parameters_raise C provider gs w e h1 :
  parameters_of C (heap w) = (Raise e, h1) ->
  let w1 := {| self := with_optimizers [] (self w); heap := h1;
               trace := trace w ++ [EvParameters (Raise e)] |} in
  on_optimizer O C provider w = (Raise e, w1) /\
  forall e' h2,
    parameters_of C h1 = (Raise e', h2) ->
    optimize O C gs w1
    = (Raise e', {| self := self w1; heap := h2;
                    trace := trace w1 ++ [EvParameters (Raise e')] |}).
Proof.
  intros Hps w1. split.
  - unfold on_optimizer, bind, update_self, call. simpl.
    rewrite Hps. reflexivity.
  - intros e' h2 Hps'.
    unfold optimize, bind, get_optimizers, call. simpl.
    rewrite Hps'. reflexivity.
Qed.

Lemma zip3_nil (A B D : Type) (xs : list A) (ys : list B) (zs : list D) :
  xs = [] \/ ys = [] \/ zs = [] -> zip3 xs ys zs = [].
Proof.
  intros [-> | [-> | ->]]; try reflexivity.
  - destruct xs; reflexivity.
  - destruct xs; [|destruct ys]; reflexivity.
Qed.

(** X5.  On a layer whose [parameters()] returns the empty tuple,
    [on_optimizer] completes without reading the shared state and without
    calling the provider, and leaves an empty list; any later [optimize],
    whatever gradients it is given, then completes having called
    [parameters()] and nothing else. *)
Theorem on_optimizer_no_parameters C provider gs w h1 :
  parameters_of C (heap w) = (Ok [], h1) ->
  let w1 := {| self := with_optimizers [] (self w); heap := h1;
               trace := trace w ++ [EvParameters (Ok [])] |} in
  on_optimizer O C provider w = (Ok tt, w1) /\
  forall ps h2,
    parameters_of C h1 = (Ok ps, h2) ->
    optimize O C gs w1
    = (Ok tt, {| self := self w1; heap := h2;
                 trace := trace w1 ++ [EvParameters (Ok ps)] |}).
Proof.
  intros Hps w1. split.
  - unfold on_optimizer, bind, update_self, call. simpl.
    rewrite Hps. reflexivity.
  - intros ps h2 Hps'.
    rewrite (optimize_attached C gs w1 [] ps h2 eq_refl Hps').
    reflexivity.
Qed.

(** X6.  When the optimizer list, the tuple of parameters or the tuple of
    gradients is empty, [optimize] completes and calls no optimizer at all:
    its only call is the one to [parameters()]. *)
Theorem optimize_nothing_to_zip C gs w os ps h1 :
  optimizers (self w) = Some os ->
  parameters_of C (heap w) = (Ok ps, h1) ->
  os = [] \/ ps = [] \/ gs = [] ->
  optimize O C gs w
  = (Ok tt, {| self := self w; heap := h1;
               trace := trace w ++ [EvParameters (Ok ps)] |}).
Proof.
  intros Hos Hps Hnil.
  rewrite (optimize_attached C gs w os ps h1 Hos Hps).
  rewrite (zip3_nil _ _ _ os ps gs Hnil). reflexivity.
Qed.

(** The loop of [on_optimizer] with a provider that hands out the same
    optimizer at every call. *)
Lemma attach_loop_shared provider o (ps : list Array) :
  (forall h o' h', provider h = (Ok o', h') -> o' = o) ->
  forall w w' os0,
    optimizers (self w) = Some os0 ->
    for_each ps (attach O provider) w = (Ok tt, w') ->
    optimizers (self w') = Some (os0 ++ repeat o (length ps)).
Proof.
  intros Hsame.
  induction ps as [|p ps IH]; intros w w' os0 Hos H; simpl in H.
  - inversion H. subst. simpl. rewrite app_nil_r. exact Hos.
  - apply bind_Ok in H. destruct H as ([] & w1 & Hp & H).
    apply attach_Ok in Hp.
    destruct Hp as (o' & s0 & os1 & h1 & h2 & h3
                    & Hprov & Hs0 & Hon & Hts & Hos1 & ->).
    assert (os1 = os0) by congruence. subst os1.
    apply Hsame in Hprov. subst o'.
    apply IH with (os0 := os0 ++ [o]) in H; [|reflexivity].
    rewrite H. simpl. rewrite <- app_assoc. reflexivity.
Qed.

(** X11.  [on_optimizer] does not ask for distinct optimizers: with a
    provider that returns the same optimizer [o] at every call, a run that
    completes leaves a list that holds [o] once per parameter. *)
Theorem on_optimizer_shared_optimizer C provider o w w' ps h1 :
  (forall h o' h', provider h = (Ok o', h') -> o' = o) ->
  parameters_of C (heap w) = (Ok ps, h1) ->
  on_optimizer O C provider w = (Ok tt, w') ->
  optimizers (self w') = Some (repeat o (length ps)).
Proof.
  intros Hsame Hps H.
  unfold on_optimizer, bind, update_self, call in H. simpl in H.
  rewrite Hps in H.
  apply (attach_loop_shared provider o ps Hsame _ _ []) in H; [|reflexivity].
  exact H.
Qed.

(** ** More on [optimize] *)

(** X12.  [optimize] never changes an attribute of the layer, however it
    ends: in particular the optimizer list is the same after as before. *)
Theorem optimize_keeps_self C gs w :
  self (snd (optimize O C gs w)) = self w.
Proof.
  destruct (optimize O C gs w) as [r w'] eqn:H. simpl.
  unfold optimize in H.
  apply bind_inv in H. destruct H as [(e & Hg & _) | (os & wa & Hg & H)];
    apply get_optimizers_inv in Hg; destruct Hg as [-> _]; [reflexivity|].
  apply bind_inv in H. destruct H as [(e & Hps & _) | (ps & wb & Hps & H)];
    apply call_inv in Hps; destruct Hps as (h1 & _ & ->); [reflexivity|].
  apply dispatch_loop_events in H. destruct H as (evs & _ & Hself & _).
  exact Hself.
Qed.

Lemma gated_nil : optimize_is_gated [].
Proof.
  intros pre o r post H. apply app_cons_not_nil in H. contradiction.
Qed.

Lemma gated_cons ev evs :
  (forall o r, ev <> EvOptimize o r) ->
  optimize_is_gated evs -> optimize_is_gated (ev :: evs).
Proof.
  intros Hev Hevs pre o r post H.
  destruct pre as [|a pre]; simpl in H; inversion H; subst.
  - exfalso. eapply Hev. reflexivity.
  - destruct (Hevs pre o r post eq_refl) as (pre' & u & ->).
    exists (a :: pre'), u. reflexivity.
Qed.

Lemma gated_applied o u r evs :
  optimize_is_gated evs ->
  optimize_is_gated
    (EvRecord o u (Ok tt) :: EvShouldOptimize o (Ok true)
       :: EvOptimize o r :: evs).
Proof.
  intros Hevs pre o' r' post H.
  destruct pre as [|a [|b [|c pre]]]; simpl in H; inversion H; subst.
  - exists [], u. reflexivity.
  - destruct (Hevs pre o' r' post eq_refl) as (pre' & u' & ->).
    exists (EvRecord o u (Ok tt) :: EvShouldOptimize o (Ok true)
              :: EvOptimize o r :: pre'), u'.
    reflexivity.
Qed.

(** What one turn of the loop of [optimize] logs, in front of a gated
    trace, is gated. *)
Lemma dispatch_gated o (p g : Array) w r w1 :
  dispatch O (o, p, g) w = (r, w1) ->
  exists evs1,
    trace w1 = trace w ++ evs1 /\
    forall evs, optimize_is_gated evs -> optimize_is_gated (evs1 ++ evs).
Proof.
  intros H. apply dispatch_cases in H.
  destruct H as (evs1 & h1 & -> & H). exists evs1.
  split; [reflexivity|]. intros evs Hevs.
  destruct H as [(e & _ & _ & ->) | [(e & ha & _ & _ & _ & ->)
                | [(ha & _ & _ & _ & ->) | (ha & hb & _ & _ & _ & ->)]]];
    simpl.
  - apply gated_cons; [discriminate | exact Hevs].
  - repeat (apply gated_cons; [discriminate|]). exact Hevs.
  - repeat (apply gated_cons; [discriminate|]). exact Hevs.
  - apply gated_applied. exact Hevs.
Qed.

Lemma dispatch_loop_gated (ts : list (Optimizer * Array * Array)) :
  forall w r w',
    for_each ts (dispatch O) w = (r, w') ->
    exists evs, trace w' = trace w ++ evs /\ optimize_is_gated evs.
Proof.
  induction ts as [|[[o p] g] ts IH]; intros w r w' H; simpl in H.
  - inversion H. subst. exists []. rewrite app_nil_r.
    split; [reflexivity | exact gated_nil].
  - apply bind_inv in H. destruct H as [(e & Hd & ->) | ([] & w1 & Hd & H)];
      apply dispatch_gated in Hd; destruct Hd as (evs1 & Htrace1 & Hg1).
    + exists evs1. split; [exact Htrace1|].
      rewrite <- (app_nil_r evs1). apply Hg1. exact gated_nil.
    + apply IH in H. destruct H as (evs & Htrace & Hg).
      exists (evs1 ++ evs). rewrite Htrace, Htrace1, app_assoc.
      split; [reflexivity|]. apply Hg1. exact Hg.
Qed.

(** X7.  [optimize] never tells an optimizer to apply its updates unasked:
    in every run, however it ends, each call to an optimizer's [optimize()]
    comes right after a [should_optimize()] on that optimizer that answered
    true, itself right after a [record] on that optimizer that returned. *)
Theorem optimize_gates_every_update C gs w :
  exists evs,
    trace (snd (optimize O C gs w)) = trace w ++ evs /\
    optimize_is_gated evs.
Proof.
  destruct (optimize O C gs w) as [r w'] eqn:H. simpl.
  unfold optimize in H.
  apply bind_inv in H. destruct H as [(e & Hg & _) | (os & wa & Hg & H)];
    apply get_optimizers_inv in Hg; destruct Hg as [-> _].
  { exists []. rewrite app_nil_r. split; [reflexivity | exact gated_nil]. }
  apply bind_inv in H. destruct H as [(e & Hps & _) | (ps & wb & Hps & H)];
    apply call_inv in Hps; destruct Hps as (h1 & _ & ->).
  { exists [EvParameters (Raise e)]. split; [reflexivity|].
    apply gated_cons; [discriminate | exact gated_nil]. }
  apply dispatch_loop_gated in H. destruct H as (evs & Htrace & Hg).
  simpl in Htrace.
  exists (EvParameters (Ok ps) :: evs). rewrite Htrace, <- app_assoc.
  split; [reflexivity|]. apply gated_cons; [discriminate | exact Hg].
Qed.

(** The loop of [optimize], when it raises: the triples before the one that
    raised were dispatched in full, and nothing was done for those after. *)
Lemma dispatch_loop_interrupted (ts : list (Optimizer * Array * Array)) :
  forall w e w',
    for_each ts (dispatch O) w = (Raise e, w') ->
    exists k o p g evs hk rest,
      nth_error ts k = Some (o, p, g) /\
      dispatched O (firstn k ts) (heap w) evs hk /\
      trace w' = trace w ++ evs ++ rest /\
      interrupted_dispatch e o {| parameter := p; gradient := g |} rest.
Proof.
  induction ts as [|[[o p] g] ts IH]; intros w e w' H; simpl in H.
  - discriminate.
  - apply bind_inv in H. destruct H as [(e0 & Hd & He) | ([] & w1 & Hd & H)];
      apply dispatch_cases in Hd; destruct Hd as (evs1 & h1 & -> & Hd).
    + inversion He. subst e0. clear He.
      exists 0, o, p, g, [], (heap w), evs1. simpl.
      split; [reflexivity|]. split; [constructor|]. split; [reflexivity|].
      unfold interrupted_dispatch.
      destruct Hd as [(e' & He & _ & ->) | [(e' & ha & He & _ & _ & ->)
                     | [(ha & He & _) | (ha & hb & _ & _ & _ & ->)]]];
        try discriminate; try (inversion He; subst e'); auto.
    + apply IH in H.
      destruct H as (k & o' & p' & g' & evs & hk & rest
                     & Hnth & Hdisp & Htrace & Hint).
      simpl in Hdisp, Htrace.
      exists (S k), o', p', g', (evs1 ++ evs), hk, rest. simpl.
      split; [exact Hnth|].
      split; [|split; [rewrite Htrace, <- !app_assoc; reflexivity
                      | exact Hint]].
      destruct Hd as [(e' & He & _) | [(e' & ha & He & _)
                     | [(ha & _ & Hrec & Hso & ->)
                       | (ha & hb & Hrec & Hso & Hopt & ->)]]];
        try discriminate; simpl.
      * eapply dispatched_deferred; eauto.
      * eapply dispatched_applied; eauto.
Qed.

(** X8.  When a call on an optimizer raises, [optimize] stops there with that
    exception: the triples before the one at fault, [k] of them, have been
    dispatched in full (their updates are recorded, and applied where the
    optimizer was ready), the calls for the triple at fault end with the one
    that raised, and nothing is done for the triples after it. *)
Theorem optimize_interrupted C gs w e w' os ps h1 :
  optimizers (self w) = Some os ->
  parameters_of C (heap w) = (Ok ps, h1) ->
  optimize O C gs w = (Raise e, w') ->
  exists k o p g evs hk rest,
    nth_error os k = Some o /\ nth_error ps k = Some p /\
    nth_error gs k = Some g /\
    dispatched O (firstn k (zip3 os ps gs)) h1 evs hk /\
    records evs = k /\
    interrupted_dispatch e o {| parameter := p; gradient := g |} rest /\
    trace w' = trace w ++ EvParameters (Ok ps) :: evs ++ rest.
Proof.
  intros Hos Hps H.
  rewrite (optimize_attached C gs w os ps h1 Hos Hps) in H.
  apply dispatch_loop_interrupted in H.
  destruct H as (k & o & p & g & evs & hk & rest
                 & Hnth & Hdisp & Htrace & Hint).
  simpl in Hdisp, Htrace.
  exists k, o, p, g, evs, hk, rest.
  apply zip3_nth_error in Hnth as Hsplit.
  destruct Hsplit as (Ho & Hp & Hg).
  repeat split; auto.
  - rewrite (dispatched_records _ _ _ _ Hdisp).
    apply firstn_length_le. apply Nat.lt_le_incl.
    apply nth_error_Some. congruence.
  - rewrite Htrace, <- app_assoc. reflexivity.
Qed.

Lemma combine_shape_In (os : list Optimizer) :
  forall (ps : list Array) i o p,
    nth_error os i = Some o -> nth_error ps i = Some p ->
    In (o, shape p) (combine os (map shape ps)).
Proof.
  induction os as [|o0 os IH]; intros [|p0 ps] [|i] o p Ho Hp;
    simpl in *; try discriminate.
  - inversion Ho. inversion Hp. subst. left. reflexivity.
  - right. eapply IH; eauto.
Qed.

(** X10.  [on_optimizer] followed by [optimize]: if [parameters()] still
    returns the tuple it returned to [on_optimizer], then, however [optimize]
    ends and however many gradients it is given, every update it records
    goes to an optimizer that [on_optimizer] bound to the shape of that
    update's parameter; and a run that completes records one update for each
    of the first [min(len(parameters), len(gradients))] parameters. *)
Theorem optimize_after_on_optimizer C provider gs w w1 r w2 ps h1 h2 :
  on_optimizer O C provider w = (Ok tt, w1) ->
  parameters_of C (heap w) = (Ok ps, h1) ->
  parameters_of C (heap w1) = (Ok ps, h2) ->
  optimize O C gs w1 = (r, w2) ->
  exists evs1 evs2,
    trace w1 = trace w ++ EvParameters (Ok ps) :: evs1 /\
    trace w2 = trace w1 ++ EvParameters (Ok ps) :: evs2 /\
    (forall o u q,
       In (EvRecord o u q) evs2 ->
       In (o, shape (parameter u)) (bound evs1)) /\
    (r = Ok tt -> records evs2 = min (length ps) (length gs)).
Proof.
  intros Hon Hps Hps1 Hopt.
  apply on_optimizer_Ok in Hon.
  destruct Hon as (ps' & h1' & os & Hps' & Hlen & Hself & Hst & Htrace1).
  assert (ps' = ps) by congruence. subst ps'.
  assert (Hs : exists s, ps = [] \/ state (self w) = Some s).
  { destruct Hst as [Hnil | [s Hs]]; [exists 0 | exists s]; auto. }
  destruct Hs as [s Hs].
  assert (Hos : optimizers (self w1) = Some os)
    by (rewrite Hself; reflexivity).
  rewrite (optimize_attached C gs w1 os ps h2 Hos Hps1) in Hopt.
  pose proof (dispatch_loop_events _ _ _ _ Hopt)
    as (evs2 & Htrace2 & _ & Hall & _).
  simpl in Htrace2.
  exists (flat_map (attach_events s) (combine ps os)), evs2.
  split; [apply Htrace1; exact Hs|].
  split; [rewrite Htrace2, <- app_assoc; reflexivity|].
  split.
  - intros o u q Hin.
    rewrite bound_attach_events by exact Hlen.
    rewrite Forall_forall in Hall. apply Hall in Hin. simpl in Hin.
    apply zip3_In in Hin. destruct Hin as (i & _ & Ho & Hp & _).
    eapply combine_shape_In; eauto.
  - intros ->. apply dispatch_loop_Ok in Hopt.
    destruct Hopt as (evs' & Hdisp & Htrace' & _). simpl in *.
    rewrite Htrace2 in Htrace'. apply app_inv_head in Htrace'. subst evs'.
    rewrite (dispatched_records _ _ _ _ Hdisp), zip3_length. lia.
Qed.

End Proofs.

(** ** Construction *)

(** C9.  [BackwardState(g)], built without [parameter_gradients], holds [g]
    as its input gradient and the empty tuple as its parameter gradients. *)
Theorem BackwardState_default_parameter_gradients (g : Array) :
  input_gradient (BackwardState__init__ g None) = g /\
  parameter_gradients (BackwardState__init__ g None) = [].
Proof. split; reflexivity. Qed.

(** C10.  [Layer()] has [trainable] false and both shapes [None]; an
    argument that is supplied is stored as it is, and each attribute falls
    back on its own default when its argument is left out. *)
Theorem Layer_init_attributes :
  (trainable (Layer__init__ None None None) = false /\
   input_shape (Layer__init__ None None None) = None /\
   output_shape (Layer__init__ None None None) = None) /\
  (forall i o t,
     input_shape (Layer__init__ (Some i) (Some o) (Some t)) = i /\
     output_shape (Layer__init__ (Some i) (Some o) (Some t)) = o /\
     trainable (Layer__init__ (Some i) (Some o) (Some t)) = t) /\
  (forall i o t,
     input_shape (Layer__init__ i o t) = default None i /\
     output_shape (Layer__init__ i o t) = default None o /\
     trainable (Layer__init__ i o t) = default false t).
Proof. repeat split. Qed.

(** C4 in the words of the spec does not hold: a layer that was just
    constructed has no optimizer list, rather than an empty one. *)
Lemma constructed_layer_has_no_optimizer_list :
  optimizers (Layer__init__ None None None) <> Some [].
Proof. simpl. discriminate. Qed.

(** ** The code at work on the dense layer *)

Example demo_on_optimizer :
  on_optimizer Demo.batch Demo.Dense Demo.provider Demo.with_shared_state
  = (Ok tt, Demo.ready) /\
  optimizers (self Demo.ready) = Some [0; 1] /\
  trace Demo.ready
  = [ EvParameters (Ok [Demo.weights; Demo.bias]);
      EvProvider (Ok 0); EvOnState 0 7 (Ok tt);
      EvOnTargetShape 0 [3; 2]%Z (Ok tt);
      EvProvider (Ok 1); EvOnState 1 7 (Ok tt);
      EvOnTargetShape 1 [1; 2]%Z (Ok tt) ].
Proof. repeat split. Qed.

Example demo_on_optimizer_without_state :
  fst (on_optimizer Demo.batch Demo.Dense Demo.provider Demo.constructed)
  = Raise (AttributeError "state").
Proof. reflexivity. Qed.

Example demo_on_optimizer_on_base_class :
  fst (on_optimizer Demo.batch (LayerBase Demo.store) Demo.provider
         Demo.with_shared_state)
  = Raise NotImplementedError.
Proof. reflexivity. Qed.

Example demo_optimize_twice :
  let gs := [Demo.weights_gradient; Demo.bias_gradient] in
  let once := snd (optimize Demo.batch Demo.Dense gs Demo.ready) in
  let twice := snd (optimize Demo.batch Demo.Dense gs once) in
  Demo.applied (heap once) = [] /\
  Demo.pending (heap twice) = [] /\
  length (Demo.applied (heap twice)) = 4.
Proof. repeat split. Qed.

(** ** The theorems at the dense layer *)

Lemma on_optimizer_one_optimizer_per_parameter_witness :
  on_optimizer Demo.batch Demo.Dense Demo.provider Demo.with_shared_state
  = (Ok tt, Demo.ready) /\
  exists ps h1 os evs,
    parameters_of Demo.Dense (heap Demo.with_shared_state) = (Ok ps, h1) /\
    trace Demo.ready
    = trace Demo.with_shared_state ++ EvParameters (Ok ps) :: evs /\
    optimizers (self Demo.ready) = Some os /\
    length os = length ps /\
    provided evs = os /\
    bound evs = combine os (map shape ps).
Proof.
  split; [reflexivity|].
  apply (on_optimizer_one_optimizer_per_parameter
           Demo.store Demo.batch Demo.Dense Demo.provider
           Demo.with_shared_state Demo.ready).
  reflexivity.
Defined.

Lemma on_optimizer_calls_in_order_witness :
  state (self Demo.with_shared_state) = Some 7 /\
  on_optimizer Demo.batch Demo.Dense Demo.provider Demo.with_shared_state
  = (Ok tt, Demo.ready) /\
  exists ps h1 os,
    parameters_of Demo.Dense (heap Demo.with_shared_state) = (Ok ps, h1) /\
    length os = length ps /\
    trace Demo.ready
    = trace Demo.with_shared_state ++ EvParameters (Ok ps)
        :: flat_map (attach_events 7) (combine ps os) /\
    provider_calls (flat_map (attach_events 7) (combine ps os)) = length ps /\
    self Demo.ready = with_optimizers os (self Demo.with_shared_state).
Proof.
  split; [reflexivity|]. split; [reflexivity|].
  apply (on_optimizer_calls_in_order
           Demo.store Demo.batch Demo.Dense Demo.provider
           Demo.with_shared_state Demo.ready 7);
    reflexivity.
Defined.

Lemma optimize_records_then_applies_witness :
  let gs := [Demo.weights_gradient; Demo.bias_gradient] in
  let os := [0; 1] in
  let ps := [Demo.weights; Demo.bias] in
  let w' := snd (optimize Demo.batch Demo.Dense gs Demo.ready) in
  length (zip3 os ps gs) = length ps /\
  (forall i o p g,
     nth_error os i = Some o -> nth_error ps i = Some p ->
     nth_error gs i = Some g ->
     nth_error (zip3 os ps gs) i = Some (o, p, g)) /\
  (optimize Demo.batch Demo.Dense gs Demo.ready = (Ok tt, w') <->
   exists evs,
     dispatched Demo.batch (zip3 os ps gs) (heap Demo.ready) evs (heap w') /\
     trace w' = trace Demo.ready ++ EvParameters (Ok ps) :: evs /\
     self w' = self Demo.ready).
Proof.
  intros gs os ps w'.
  apply (optimize_records_then_applies
           Demo.store Demo.batch Demo.Dense gs Demo.ready w' os ps
           (heap Demo.ready));
    reflexivity.
Defined.

Lemma optimizers_absent_until_on_optimizer_witness :
  optimizers (self Demo.with_shared_state) = None /\
  exists ps h1 os,
    parameters_of Demo.Dense (heap Demo.with_shared_state) = (Ok ps, h1) /\
    optimizers (self Demo.ready) = Some os /\
    length os = length ps.
Proof.
  split.
  - apply (proj1 (optimizers_absent_until_on_optimizer Demo.store Demo.batch)).
    apply boo_on_state. apply boo_constructed.
  - apply (proj2 (optimizers_absent_until_on_optimizer Demo.store Demo.batch)
             Demo.Dense Demo.provider Demo.with_shared_state Demo.ready).
    reflexivity.
Defined.

Lemma optimize_before_on_optimizer_raises_witness :
  before_on_optimizer Demo.batch Demo.with_shared_state /\
  optimize Demo.batch Demo.Dense [Demo.weights_gradient; Demo.bias_gradient]
    Demo.with_shared_state
  = (Raise (AttributeError "optimizers"), Demo.with_shared_state).
Proof.
  assert (H : before_on_optimizer Demo.batch Demo.with_shared_state)
    by (apply boo_on_state; apply boo_constructed).
  split; [exact H|].
  apply (optimize_before_on_optimizer_raises
           Demo.store Demo.batch Demo.Dense
           [Demo.weights_gradient; Demo.bias_gradient]
           Demo.with_shared_state H).
Defined.

Lemma optimize_stops_with_shortest_witness :
  let gs := [Demo.weights_gradient] in
  let w' := snd (optimize Demo.batch Demo.Dense gs Demo.ready) in
  exists evs,
    trace w' = trace Demo.ready
                 ++ EvParameters (Ok [Demo.weights; Demo.bias]) :: evs /\
    self w' = self Demo.ready /\
    (Ok tt = Ok tt ->
       records evs = 1 /\
       dispatched Demo.batch (zip3 [0; 1] [Demo.weights; Demo.bias] gs)
         (heap Demo.ready) evs (heap w')) /\
    (forall e, Ok tt = Raise e ->
       exists pre ev, evs = pre ++ [ev] /\ event_exn ev = Some e) /\
    Forall (fun ev => exists i,
              i < 1 /\ at_index [0; 1] [Demo.weights; Demo.bias] gs i ev) evs /\
    (forall o, ~ In o [0] ->
       Forall (fun ev => ~ on_optimizer_object o ev) evs) /\
    (forall p, ~ In p [Demo.weights] ->
       Forall (fun ev => ~ hands_over p ev) evs).
Proof.
  intros gs w'.
  apply (optimize_stops_with_shortest
           Demo.store Demo.batch Demo.Dense gs Demo.ready (Ok tt) w'
           [0; 1] [Demo.weights; Demo.bias] (heap Demo.ready));
    reflexivity.
Defined.

Lemma inherited_method_raises_witness :
  overridden (LayerBase Demo.store) Forward = false /\
  not_implemented (LayerBase Demo.store) Forward.
Proof.
  split; [reflexivity|].
  apply (inherited_method_raises Demo.store (LayerBase Demo.store) Forward).
  reflexivity.
Defined.

(** ** The further properties at work *)

Lemma on_optimizer_any_witness :
  let w' := snd (on_optimizer Demo.batch Demo.Dense Faults.single_provider
                   Demo.with_shared_state) in
  let e := OtherError "no optimizer left" in
  exists os rest,
    optimizers (self w') = Some os /\
    trace w' = trace Demo.with_shared_state
                 ++ EvParameters (Ok [Demo.weights; Demo.bias])
                 :: flat_map (attach_events 7)
                      (combine [Demo.weights; Demo.bias] os) ++ rest /\
    (@Raise unit e = Ok tt ->
       length os = length [Demo.weights; Demo.bias] /\ rest = []) /\
    (forall e0, @Raise unit e = Raise e0 ->
       exists p,
         nth_error [Demo.weights; Demo.bias] (length os) = Some p /\
         interrupted 7 e0 p rest).
Proof.
  intros w' e.
  apply (on_optimizer_any Demo.store Demo.batch Demo.Dense
           Faults.single_provider Demo.with_shared_state (Raise e) w' 7
           [Demo.weights; Demo.bias] (heap Demo.with_shared_state));
    reflexivity.
Defined.

Lemma on_optimizer_completes_witness :
  exists w',
    on_optimizer Demo.batch Demo.Dense Demo.provider Demo.with_shared_state
    = (Ok tt, w').
Proof.
  apply (on_optimizer_completes Demo.store Demo.batch Demo.Dense
           Demo.provider Demo.with_shared_state [Demo.weights; Demo.bias]
           (heap Demo.with_shared_state) 7).
  - reflexivity.
  - reflexivity.
  - intros h. eexists. eexists. reflexivity.
  - intros o s h. eexists. reflexivity.
  - intros o sh h. eexists. reflexivity.
Defined.

Lemma on_optimizer_parameters_raise_witness :
  let C := LayerBase Demo.store in
  let w1 := {| self := with_optimizers [] (self Demo.with_shared_state);
               heap := Demo.empty;
               trace := [EvParameters (Raise NotImplementedError)] |} in
  on_optimizer Demo.batch C Demo.provider Demo.with_shared_state
  = (Raise NotImplementedError, w1) /\
  forall e' h2,
    parameters_of C Demo.empty = (Raise e', h2) ->
    optimize Demo.batch C [Demo.weights_gradient] w1
    = (Raise e', {| self := self w1; heap := h2;
                    trace := trace w1 ++ [EvParameters (Raise e')] |}).
Proof.
  intros C w1.
  apply (on_optimizer_parameters_raise Demo.store Demo.batch C Demo.provider
           [Demo.weights_gradient] Demo.with_shared_state
           NotImplementedError Demo.empty).
  reflexivity.
Defined.

Lemma on_optimizer_no_parameters_witness :
  let w1 := {| self := with_optimizers [] (self Demo.constructed);
               heap := Demo.empty;
               trace := [EvParameters (Ok [])] |} in
  state (self Demo.constructed) = None /\
  on_optimizer Demo.batch Faults.Activation Demo.provider Demo.constructed
  = (Ok tt, w1) /\
  forall ps h2,
    parameters_of Faults.Activation Demo.empty = (Ok ps, h2) ->
    optimize Demo.batch Faults.Activation [Demo.weights_gradient] w1
    = (Ok tt, {| self := self w1; heap := h2;
                 trace := trace w1 ++ [EvParameters (Ok ps)] |}).
Proof.
  intros w1. split; [reflexivity|].
  apply (on_optimizer_no_parameters Demo.store Demo.batch Faults.Activation
           Demo.provider [Demo.weights_gradient] Demo.constructed
           Demo.empty).
  reflexivity.
Defined.

Lemma optimize_nothing_to_zip_witness :
  optimize Demo.batch Demo.Dense [] Demo.ready
  = (Ok tt, {| self := self Demo.ready; heap := heap Demo.ready;
               trace := trace Demo.ready
                          ++ [EvParameters (Ok [Demo.weights; Demo.bias])] |}).
Proof.
  apply (optimize_nothing_to_zip Demo.store Demo.batch Demo.Dense []
           Demo.ready [0; 1] [Demo.weights; Demo.bias] (heap Demo.ready)).
  - reflexivity.
  - reflexivity.
  - right. right. reflexivity.
Defined.

Lemma optimize_interrupted_witness :
  let gs := [Demo.weights_gradient; Demo.bias_gradient] in
  let ps := [Demo.weights; Demo.bias] in
  let w' := snd (optimize Faults.fragile Demo.Dense gs Demo.ready) in
  optimize Faults.fragile Demo.Dense gs Demo.ready
  = (Raise (OtherError "shape mismatch"), w') /\
  exists k o p g evs hk rest,
    nth_error [0; 1] k = Some o /\ nth_error ps k = Some p /\
    nth_error gs k = Some g /\
    dispatched Faults.fragile (firstn k (zip3 [0; 1] ps gs))
      (heap Demo.ready) evs hk /\
    records evs = k /\
    interrupted_dispatch (OtherError "shape mismatch") o
      {| parameter := p; gradient := g |} rest /\
    trace w' = trace Demo.ready ++ EvParameters (Ok ps) :: evs ++ rest.
Proof.
  intros gs ps w'. split; [reflexivity|].
  apply (optimize_interrupted Demo.store Faults.fragile Demo.Dense gs
           Demo.ready (OtherError "shape mismatch") w' [0; 1] ps
           (heap Demo.ready));
    reflexivity.
Defined.

Lemma optimize_completes_witness :
  exists w',
    optimize Demo.batch Demo.Dense
      [Demo.weights_gradient; Demo.bias_gradient; Demo.bias_gradient]
      Demo.ready
    = (Ok tt, w').
Proof.
  apply (optimize_completes Demo.store Demo.batch Demo.Dense
           [Demo.weights_gradient; Demo.bias_gradient; Demo.bias_gradient]
           Demo.ready [0; 1] [Demo.weights; Demo.bias] (heap Demo.ready)).
  - reflexivity.
  - reflexivity.
  - intros o u h. eexists. reflexivity.
  - intros o h. eexists. eexists. reflexivity.
  - intros o h. eexists. reflexivity.
Defined.

Lemma optimize_after_on_optimizer_witness :
  let gs := [Demo.weights_gradient] in
  let ps := [Demo.weights; Demo.bias] in
  let w2 := snd (optimize Demo.batch Demo.Dense gs Demo.ready) in
  exists evs1 evs2,
    trace Demo.ready
    = trace Demo.with_shared_state ++ EvParameters (Ok ps) :: evs1 /\
    trace w2 = trace Demo.ready ++ EvParameters (Ok ps) :: evs2 /\
    (forall o u q,
       In (EvRecord o u q) evs2 ->
       In (o, shape (parameter u)) (bound evs1)) /\
    (Ok tt = Ok tt -> records evs2 = min (length ps) (length gs)).
Proof.
  intros gs ps w2.
  apply (optimize_after_on_optimizer Demo.store Demo.batch Demo.Dense
           Demo.provider gs Demo.with_shared_state Demo.ready (Ok tt) w2 ps
           (heap Demo.with_shared_state) (heap Demo.ready));
    reflexivity.
Defined.

Lemma on_optimizer_shared_optimizer_witness :
  let w' := snd (on_optimizer Demo.batch Demo.Dense Faults.shared_provider
                   Demo.with_shared_state) in
  on_optimizer Demo.batch Demo.Dense Faults.shared_provider
    Demo.with_shared_state = (Ok tt, w') /\
  optimizers (self w') = Some [0; 0].
Proof.
  intros w'. split; [reflexivity|].
  apply (on_optimizer_shared_optimizer Demo.store Demo.batch Demo.Dense
           Faults.shared_provider 0 Demo.with_shared_state w'
           [Demo.weights; Demo.bias] (heap Demo.with_shared_state)).
  - intros h o' h' H. inversion H. reflexivity.
  - reflexivity.
  - reflexivity.
Defined.
